(** * Cyclomatic complexity analyzer: a shallow embedding of
      [python-analyzer/complexity_analyzer.py] and the properties of its
      counting engine and configuration resolver. *)

From Stdlib Require Import ZArith String Ascii List Lia.
From stdpp Require Import base option list strings gmap fin_maps pretty.

Set Warnings "-register-all".
Local Open Scope string_scope.
Local Open Scope Z_scope.
Local Open Scope list_scope.

(** ** Python values that occur in syntax trees and configurations *)

(** Field values of a syntax-tree node that are not nodes themselves:
    identifiers, constants and [None]. *)
Inductive atom : Type :=
  | ANone
  | ABool (b : bool)
  | AInt (z : Z)
  | AStr (s : string).

(** The position attributes ([_attributes]) of statement, expression,
    handler and pattern nodes. *)
Record location : Type := Location {
  lineno : Z;
  col_offset : Z;
  end_lineno : option Z;
  end_col_offset : option Z
}.

(** A syntax-tree node as [ast.NodeVisitor] sees it: the name of its class,
    its position attributes when the class has them, and its [_fields] in
    declaration order.  A field holds a node, a list, or an atom. *)
Inductive node : Type :=
  | Node (cls : string) (loc : option location) (fields : list (string * value))
with value : Type :=
  | VAst (n : node)
  | VList (items : list value)
  | VAtom (a : atom).

Definition node_cls (n : node) : string := let 'Node c _ _ := n in c.
Definition node_loc (n : node) : option location := let 'Node _ l _ := n in l.
Definition node_fields (n : node) : list (string * value) :=
  let 'Node _ _ fs := n in fs.

(** [isinstance(node, ast.C)]: the node classes form a flat hierarchy below
    the abstract [stmt], [expr], ... classes, so for the concrete classes
    the analyzer tests, membership is equality of the class. *)
Definition isinstance (n : node) (c : string) : bool :=
  bool_decide (node_cls n = c).

(** [getattr(node, 'lineno', 0)]. *)
Definition getattr_lineno (n : node) : Z :=
  match node_loc n with Some l => lineno l | None => 0 end.

(** Attribute access [node.f] on a field. *)
Fixpoint assoc {A : Type} (k : string) (l : list (string * A)) : option A :=
  match l with
  | [] => None
  | (k', v) :: l' => if bool_decide (k' = k) then Some v else assoc k l'
  end.

(** ** JSON values and the configuration mapping *)

(** What [json.load] returns.  Numbers are integers: in every place the
    analyzer looks at a number (truth, use as a pair, use as a key) a
    fractional one behaves as some integer does.  A text is held as its
    UTF-8 bytes and taken apart by code points where Python does so. *)
Inductive json : Type :=
  | JNull
  | JBool (b : bool)
  | JNum (z : Z)
  | JStr (s : string)
  | JArr (items : list json)
  | JObj (members : list (string * json)).

(** Python truthiness of a value produced by [json.load]. *)
Definition truthy (j : json) : bool :=
  match j with
  | JNull => false
  | JBool b => b
  | JNum z => negb (z =? 0)
  | JStr s => negb (bool_decide (s = ""))
  | JArr items => match items with [] => false | _ => true end
  | JObj members => match members with [] => false | _ => true end
  end.

(** A configuration is a [dict] read only through string keys. *)
Abbreviation config := (gmap string json).

(** [self.config.get(key, True)] used as a condition. *)
Definition config_get (cfg : config) (key : string) (dflt : json) : json :=
  default dflt (cfg !! key).

Definition enabled (cfg : config) (key : string) : bool :=
  truthy (config_get cfg key (JBool true)).

(** ** Configuration presets *)

Definition preset_entries (name description : string)
    (countAssert countBoolOp countComprehension countComprehensionIf
     countWith : bool) : list (string * json) :=
  [ ("name", JStr name);
    ("description", JStr description);
    ("countIf", JBool true);
    ("countWhile", JBool true);
    ("countFor", JBool true);
    ("countExcept", JBool true);
    ("countAssert", JBool countAssert);
    ("countBoolOp", JBool countBoolOp);
    ("countTernary", JBool true);
    ("countComprehension", JBool countComprehension);
    ("countComprehensionIf", JBool countComprehensionIf);
    ("countMatch", JBool true);
    ("countWith", JBool countWith) ].

Definition strict_mccabe : config :=
  list_to_map (preset_entries "Strict McCabe"
    "Original McCabe complexity (minimal)" false false false false false).

Definition standard : config :=
  list_to_map (preset_entries "Standard (Industry Common)"
    "Common industry standard (Radon, ESLint)" false true true true false).

Definition comprehensive : config :=
  list_to_map (preset_entries "Comprehensive"
    "Most conservative (SonarQube-like)" true true true true true).

Definition PRESETS : gmap string config :=
  list_to_map [ ("strict_mccabe", strict_mccabe);
                ("standard", standard);
                ("comprehensive", comprehensive) ].

(** ** The counting pass: [ComplexityCounter] *)

Record ComplexityDetail : Type := Detail {
  type : string;
  line : Z;
  amount : Z;
  description : string
}.

(** The mutable attributes of a [ComplexityCounter]; its [config] never
    changes during a pass and is passed alongside. *)
Record counter : Type := Counter {
  complexity : Z;
  collect_details : bool;
  details : list ComplexityDetail
}.

(** [ComplexityCounter.__init__]. *)
Definition counter_init (collect : bool) : counter :=
  {| complexity := 1; collect_details := collect; details := [] |}.

(** [ComplexityCounter._add_complexity]. *)
Definition _add_complexity (amt : Z) (node_type : string) (ln : Z)
    (desc : string) (c : counter) : counter :=
  {| complexity := complexity c + amt;
     collect_details := collect_details c;
     details := if collect_details c
                then details c ++ [Detail node_type ln amt desc]
                else details c |}.

(** [SIMPLE_HANDLERS], in insertion order:
    node class, then (type name, description, configuration key). *)
Definition SIMPLE_HANDLERS : list (string * (string * string * string)) :=
  [ ("If", ("if", "if statement", "countIf"));
    ("While", ("while", "while loop", "countWhile"));
    ("For", ("for", "for loop", "countFor"));
    ("ExceptHandler", ("except", "exception handler", "countExcept"));
    ("Assert", ("assert", "assert statement", "countAssert"));
    ("With", ("with", "with statement", "countWith"));
    ("IfExp", ("ternary", "ternary expression", "countTernary")) ].

(** The loop at the head of [ComplexityCounter.visit]: the first entry whose
    class the node is an instance of decides, then the loop breaks. *)
Fixpoint simple_handlers_loop (cfg : config) (n : node)
    (handlers : list (string * (string * string * string)))
    (c : counter) : counter :=
  match handlers with
  | [] => c
  | (node_class, (type_name, desc, config_key)) :: rest =>
      if isinstance n node_class then
        if enabled cfg config_key
        then _add_complexity 1 type_name (getattr_lineno n) desc c
        else c
      else simple_handlers_loop cfg n rest c
  end.

(** [ComplexityCounter.visit]: the override replaces the dispatching
    [NodeVisitor.visit], so every node gets the simple-handler loop followed
    by [generic_visit], whose recursive calls come back to this override.
    [generic_visit] walks the fields in order; in a list field it visits the
    items that are nodes, and it visits a field that is a node.  The
    recursion follows the tree; for trees nested deeper than the
    interpreter lets calls nest, see [visitor_visit] below. *)
Fixpoint visit (cfg : config) (n : node) (c : counter) {struct n} : counter :=
  match n with
  | Node _ _ fields =>
      let c := simple_handlers_loop cfg n SIMPLE_HANDLERS c in
      (fix generic_visit (fs : list (string * value)) (c : counter) : counter :=
         match fs with
         | [] => c
         | (_, v) :: fs' =>
             let c :=
               match v with
               | VList items =>
                   (fix visit_items (l : list value) (c : counter) : counter :=
                      match l with
                      | [] => c
                      | VAst item :: l' => visit_items l' (visit cfg item c)
                      | _ :: l' => visit_items l' c
                      end) items c
               | VAst child => visit cfg child c
               | VAtom _ => c
               end in
             generic_visit fs' c
         end) fields c
  end.

(** [NodeVisitor.generic_visit] of a counter, whose calls to [self.visit]
    reach the override above. *)
Definition visit_value (cfg : config) (v : value) (c : counter) : counter :=
  match v with
  | VAst n => visit cfg n c
  | _ => c
  end.

Definition visit_field (cfg : config) (v : value) (c : counter) : counter :=
  match v with
  | VList items => fold_left (fun c item => visit_value cfg item c) items c
  | VAst child => visit cfg child c
  | VAtom _ => c
  end.

Definition generic_visit (cfg : config) (n : node) (c : counter) : counter :=
  fold_left (fun c f => visit_field cfg f.2 c) (node_fields n) c.

(** A whole pass as [_visit_function] runs it:
    [ComplexityCounter(config, collect_details=True)], then [visit(node)]. *)
Definition count (cfg : config) (n : node) : counter :=
  visit cfg n (counter_init true).

(** ** Exceptions and dynamic attribute access *)

(** The exceptions the analyzer can meet; the text the interpreter attaches
    to its own type and value errors is left out. *)
Inductive exn : Type :=
  | AttributeError (obj attr : string)
  | TypeError
  | ValueError
  | SyntaxError (msg : string) (lineno : option Z)
  | FileNotFoundError
  | OtherException (msg : string).

Inductive result (A : Type) : Type :=
  | Ok (a : A)
  | Raise (e : exn).
Arguments Ok {A} a.
Arguments Raise {A} e.

#[global] Instance result_ret : MRet result := fun _ a => Ok a.
#[global] Instance result_fmap : FMap result := fun _ _ f r =>
  match r with
  | Ok a => Ok (f a)
  | Raise e => Raise e
  end.
#[global] Instance result_bind : MBind result := fun _ _ k r =>
  match r with
  | Ok a => k a
  | Raise e => Raise e
  end.

(** [type(v).__name__]. *)
Definition type_name (v : value) : string :=
  match v with
  | VAst n => node_cls n
  | VList _ => "list"
  | VAtom ANone => "NoneType"
  | VAtom (ABool _) => "bool"
  | VAtom (AInt _) => "int"
  | VAtom (AStr _) => "str"
  end.

(** [v.attr] for a field of a node; none of the names the analyzer reads
    is an attribute of a string, a list, a number or [None]. *)
Definition getattr (v : value) (attr : string) : result value :=
  match v with
  | VAst n =>
      match assoc attr (node_fields n) with
      | Some x => Ok x
      | None => Raise (AttributeError (node_cls n) attr)
      end
  | _ => Raise (AttributeError (type_name v) attr)
  end.

(** [node.lineno] and [node.col_offset]: defined on the classes that carry
    a position. *)
Definition attr_lineno (n : node) : result Z :=
  match node_loc n with
  | Some l => Ok (lineno l)
  | None => Raise (AttributeError (node_cls n) "lineno")
  end.

Definition attr_col_offset (n : node) : result Z :=
  match node_loc n with
  | Some l => Ok (col_offset l)
  | None => Raise (AttributeError (node_cls n) "col_offset")
  end.

(** A text is held as its UTF-8 bytes; Python counts and iterates code
    points.  A byte [10xxxxxx] continues the code point before it. *)
Definition continuation (a : ascii) : bool :=
  match a with
  | Ascii _ _ _ _ _ _ false true => true
  | _ => false
  end.

Definition continues (s : string) : bool :=
  match s with
  | String b _ => continuation b
  | EmptyString => false
  end.

Fixpoint code_points (s : string) : list string :=
  match s with
  | EmptyString => []
  | String a s' =>
      match code_points s' with
      | cp :: rest =>
          if continues s' then String a cp :: rest
          else String a EmptyString :: cp :: rest
      | [] => [String a EmptyString]
      end
  end.

Definition chars (s : string) : list value :=
  map (fun c => VAtom (AStr c)) (code_points s).

(** [len(v)]. *)
Definition py_len (v : value) : result Z :=
  match v with
  | VList l => Ok (Z.of_nat (length l))
  | VAtom (AStr s) => Ok (Z.of_nat (length (code_points s)))
  | _ => Raise TypeError
  end.

(** The items a [for] loop over [v] runs through. *)
Definition py_iter (v : value) : result (list value) :=
  match v with
  | VList l => Ok l
  | VAtom (AStr s) => Ok (chars s)
  | _ => Raise TypeError
  end.

(** [v is None]. *)
Definition is_None (v : value) : bool :=
  match v with
  | VAtom ANone => true
  | _ => false
  end.

Definition isinstance_value (v : value) (c : string) : bool :=
  match v with
  | VAst n => isinstance n c
  | _ => false
  end.

(** A [for] loop whose body may raise. *)
Fixpoint for_each {A S : Type} (body : A -> S -> result S) (l : list A) (s : S)
    : result S :=
  match l with
  | [] => Ok s
  | x :: l' => s' ← body x s; for_each body l' s'
  end.

(** ** The named handlers of [ComplexityCounter]

    These methods exist on the class, but [ComplexityCounter.visit] above
    never looks a [visit_<Class>] method up, so no pass calls them. *)

(** [ComplexityCounter.visit_BoolOp]. *)
Definition visit_BoolOp (cfg : config) (n : node) (c : counter) : result counter :=
  c ← (if enabled cfg "countBoolOp" then
         op ← getattr (VAst n) "op";
         if isinstance_value op "And" || isinstance_value op "Or" then
           let op_name := if isinstance_value op "And" then "and" else "or" in
           values ← getattr (VAst n) "values";
           len ← py_len values;
           let amount := len - 1 in
           ln ← attr_lineno n;
           Ok (_add_complexity amount "bool_op" ln
                 (pretty amount +:+ " " +:+ op_name +:+ " operator(s)") c)
         else Ok c
       else Ok c);
  Ok (generic_visit cfg n c).

(** [ComplexityCounter._handle_comprehension]. *)
Definition _handle_comprehension (cfg : config) (n : node)
    (comp_type desc : string) (c : counter) : result counter :=
  if negb (enabled cfg "countComprehension") then Ok c
  else
    generators ← getattr (VAst n) "generators" ≫= py_iter;
    for_each (fun comp c =>
      ln ← attr_lineno n;
      let c := _add_complexity 1 comp_type ln desc c in
      if enabled cfg "countComprehensionIf" then
        ifs ← getattr comp "ifs" ≫= py_iter;
        for_each (fun _ c =>
          ln ← attr_lineno n;
          Ok (_add_complexity 1 "comp_if" ln "comprehension if" c)) ifs c
      else Ok c) generators c.

(** [visit_ListComp], [visit_SetComp], [visit_DictComp] and
    [visit_GeneratorExp]. *)
Definition visit_comprehension (comp_type desc : string) (cfg : config)
    (n : node) (c : counter) : result counter :=
  c ← _handle_comprehension cfg n comp_type desc c;
  Ok (generic_visit cfg n c).

Definition visit_ListComp := visit_comprehension "list_comp" "list comprehension".
Definition visit_SetComp := visit_comprehension "set_comp" "set comprehension".
Definition visit_DictComp := visit_comprehension "dict_comp" "dict comprehension".
Definition visit_GeneratorExp := visit_comprehension "gen_exp" "generator expression".

(** [ComplexityCounter.visit_Match]: a case whose pattern is a [MatchAs]
    with no name (the bare [_]) is the one left out. *)
Definition visit_Match (cfg : config) (n : node) (c : counter) : result counter :=
  c ← (if enabled cfg "countMatch" then
         cases ← getattr (VAst n) "cases" ≫= py_iter;
         for_each (fun case c =>
           pattern ← getattr case "pattern";
           counted ← (if negb (isinstance_value pattern "MatchAs") then Ok true
                      else name ← getattr pattern "name";
                           Ok (negb (is_None name)));
           if counted : bool then
             ln ← attr_lineno n;
             Ok (_add_complexity 1 "match_case" ln "match case" c)
           else Ok c) cases c
       else Ok c);
  Ok (generic_visit cfg n c).

(** ** Function discovery: [ComplexityVisitor] *)

(** The dictionary [_visit_function] builds for one function. *)
Record function_info : Type := FunctionInfo {
  fn_name : value;
  fn_line : Z;
  fn_col : Z;
  fn_end_line : option Z;
  fn_end_col : option Z;
  fn_is_async : bool;
  fn_complexity : Z;
  fn_details : list ComplexityDetail
}.

Record visitor : Type := Visitor {
  functions : list function_info;
  current_function : option function_info;
  visitor_config : config
}.

(** [ComplexityVisitor.__init__]: [config or PRESETS['standard']], where an
    empty dictionary is as false as [None]. *)
Definition visitor_init (cfg : option config) : visitor :=
  {| functions := [];
     current_function := None;
     visitor_config :=
       match cfg with
       | Some c => if bool_decide (c = ∅) then standard else c
       | None => standard
       end |}.

(** [ComplexityVisitor._visit_function]: one counting pass over the
    definition, one record appended; the body is not visited further. *)
Definition _visit_function (n : node) (is_async : bool) (v : visitor)
    : result visitor :=
  let parent_function := current_function v in
  name ← getattr (VAst n) "name";
  ln ← attr_lineno n;
  col ← attr_col_offset n;
  let end_ln := node_loc n ≫= end_lineno in
  let end_col := node_loc n ≫= end_col_offset in
  let counter := count (visitor_config v) n in
  let info := {| fn_name := name; fn_line := ln; fn_col := col;
                 fn_end_line := end_ln; fn_end_col := end_col;
                 fn_is_async := is_async;
                 fn_complexity := complexity counter;
                 fn_details := details counter |} in
  Ok {| functions := functions v ++ [info];
        current_function := parent_function;
        visitor_config := visitor_config v |}.

(** The head of the inherited [NodeVisitor.visit_Constant]:
    [value = node.value]; any other class has no such step. *)
Definition visit_Constant_value (n : node) : result value :=
  if bool_decide (node_cls n = "Constant") then getattr (VAst n) "value"
  else Ok (VAtom ANone).

(** [NodeVisitor.visit] as [ComplexityVisitor] inherits it: the method
    [visit_<Class>] when the visitor has one, [generic_visit] otherwise.
    The visitor has three: its own two for function definitions, and the
    inherited [visit_Constant], which reads [node.value] and, the visitor
    having none of the retired [visit_Num], [visit_Str], ... methods, goes
    on with [generic_visit].

    The recursion follows the tree.  The interpreter bounds the depth of
    calls: on a tree nested deeper than that bound the visitor, like the
    counting pass, raises a recursion error that this embedding does not
    have; what is stated of a run that returns holds of every run. *)
Fixpoint visitor_visit (n : node) (v : visitor) {struct n} : result visitor :=
  match n with
  | Node cls _ fields =>
      if bool_decide (cls = "FunctionDef") then _visit_function n false v
      else if bool_decide (cls = "AsyncFunctionDef") then _visit_function n true v
      else
        _ ← visit_Constant_value n;
        (fix generic_visit (fs : list (string * value)) (v : visitor)
             : result visitor :=
           match fs with
           | [] => Ok v
           | (_, x) :: fs' =>
               v ← match x with
                   | VList items =>
                       (fix visit_items (l : list value) (v : visitor)
                            : result visitor :=
                          match l with
                          | [] => Ok v
                          | VAst item :: l' =>
                              v ← visitor_visit item v; visit_items l' v
                          | _ :: l' => visit_items l' v
                          end) items v
                   | VAst child => visitor_visit child v
                   | VAtom _ => Ok v
                   end;
               generic_visit fs' v
           end) fields v
  end.

(** ** Configuration resolution *)

(** The distinct keys of a parsed JSON object, in order of appearance. *)
Fixpoint object_keys (members : list (string * json)) : list string :=
  match members with
  | [] => []
  | (k, _) :: rest =>
      k :: filter (fun k' => k' ≠ k) (object_keys rest)
  end.

(** One element of the sequence given to [dict.update], read as a
    key-value pair: any iterable of exactly two items. *)
Definition as_pair (item : json) : result (json * json) :=
  match item with
  | JArr [k; v] => Ok (k, v)
  | JArr _ => Raise ValueError
  | JStr s =>
      match code_points s with
      | [a; b] => Ok (JStr a, JStr b)
      | _ => Raise ValueError
      end
  | JObj members =>
      match object_keys members with
      | [k1; k2] => Ok (JStr k1, JStr k2)
      | _ => Raise ValueError
      end
  | JNull | JBool _ | JNum _ => Raise TypeError
  end.

(** [config[k] = v] for a key read from a file: lists and dictionaries are
    unhashable; a key that is not a string can never be looked up by the
    analyzer and leaves the string-keyed view of the dictionary as it is. *)
Definition set_item (cfg : config) (k v : json) : result config :=
  match k with
  | JStr s => Ok (<[s := v]> cfg)
  | JArr _ | JObj _ => Raise TypeError
  | JNull | JBool _ | JNum _ => Ok cfg
  end.

(** [config.update(other)] for a value produced by [json.load]: a mapping
    overlays its members, any other iterable is read as a sequence of
    pairs, anything else is a type error. *)
Definition update (cfg : config) (other : json) : result config :=
  match other with
  | JObj members =>
      Ok (fold_left (fun c kv => <[kv.1 := kv.2]> c) members cfg)
  | JArr items =>
      for_each (fun item c => kv ← as_pair item; set_item c kv.1 kv.2) items cfg
  | JStr EmptyString => Ok cfg
  | JStr _ => Raise ValueError
  | JNull | JBool _ | JNum _ => Raise TypeError
  end.

(** The state of [.complexity.json] in one directory. *)
Inductive config_file : Type :=
  | Missing
  | Unloadable (e : string)
  | Loaded (j : json).

(** Paths are POSIX paths.  A directory is the list of its components:
    [[]] is [/], [[a; b]] is [/a/b].  A path that begins with two slashes, which [os.path.abspath]
    keeps apart, has an empty first component: [[""; a]] is [//a] and
    [[""]] is [//].  The path of the override file of a directory, as
    [os.path.join] builds it. *)
Definition config_path (dir : list string) : string :=
  foldr (fun d s => "/" +:+ d +:+ s) "/.complexity.json" dir.

Definition warning (dir : list string) (e : string) : string :=
  "Warning: Failed to load " +:+ config_path dir +:+ ": " +:+ e.

(** The loop of [find_project_config]; [up] lists the components of
    [current_dir] innermost first, so that [os.path.dirname] is the tail.
    The loop has two exits.  At [/], the empty list, its condition fails
    and the directory is not looked at.  At [//], the list [[""]], the
    directory is looked at and then found to be its own parent: the loop
    breaks, which going on to the empty tail gives as well.
    The result is the loaded value ([JNull] is Python's [None]) and the
    lines printed to [sys.stderr]. *)
Fixpoint walk_up (fs : list string -> config_file) (up : list string)
    : json * list string :=
  match up with
  | [] => (JNull, [])
  | _ :: parent =>
      match fs (rev up) with
      | Loaded j => (j, [])
      | Unloadable e => (JNull, [warning (rev up) e])
      | Missing => walk_up fs parent
      end
  end.

(** [find_project_config], given the directory of the analysed file. *)
Definition find_project_config (fs : list string -> config_file)
    (dir : list string) : json * list string :=
  walk_up fs (rev dir).

(** [preset and preset in PRESETS]. *)
Definition names_preset (preset : option string) : option config :=
  match preset with
  | Some p => if bool_decide (p = "") then None else PRESETS !! p
  | None => None
  end.

(** Step 1 of [load_config]: the named preset, or the standard one. *)
Definition base_config (preset : option string) : config :=
  default standard (names_preset preset).

(** [load_config]: the effective configuration, or the exception that
    [config.update] raised, together with the lines printed to
    [sys.stderr]. *)
Definition load_config (fs : list string -> config_file)
    (getenv : option string) (dir : list string) (preset : option string)
    : result config * list string :=
  let config := base_config preset in
  let '(project_config, stderr) := find_project_config fs dir in
  (config ← (if truthy project_config then update config project_config
             else Ok config);
   Ok (match names_preset getenv with
       | Some p => p ∪ config
       | None => config
       end),
   stderr).

(** ** Analysis of one file *)

(** The text of an error: built by the analyzer, or [str(e)] of the
    exception it caught. *)
Inductive error_text : Type :=
  | Text (s : string)
  | StrOf (e : exn).

(** The dictionary [analyze_file] returns; a key the dictionary does not
    have is [None] here. *)
Record AnalysisResult : Type := Result {
  success : bool;
  result_functions : list function_info;
  total_functions : option Z;
  config_used : option json;
  error : option error_text;
  error_type : option string;
  error_line : option (option Z)
}.

Definition format_lineno (l : option Z) : string :=
  match l with Some z => pretty z | None => "None" end.

(** The three [except] clauses of [analyze_file]. *)
Definition failure (file_path : string) (e : exn) : AnalysisResult :=
  match e with
  | SyntaxError msg l =>
      {| success := false; result_functions := [];
         total_functions := None; config_used := None;
         error := Some (Text ("Syntax error: " +:+ msg +:+ " at line "
                                +:+ format_lineno l));
         error_type := Some "syntax"; error_line := Some l |}
  | FileNotFoundError =>
      {| success := false; result_functions := [];
         total_functions := None; config_used := None;
         error := Some (Text ("File not found: " +:+ file_path));
         error_type := Some "file_not_found"; error_line := None |}
  | _ =>
      {| success := false; result_functions := [];
         total_functions := None; config_used := None;
         error := Some (StrOf e);
         error_type := Some "unknown"; error_line := None |}
  end.

(** [analyze_file]: [source] is what reading and parsing the file gave,
    the tree or the exception; the result comes with the lines printed to
    [sys.stderr] when the configuration had to be loaded here. *)
Definition analyze_file (fs : list string -> config_file)
    (getenv : option string) (file_path : string) (dir : list string)
    (source : result node) (cfg : option config)
    : AnalysisResult * list string :=
  match source with
  | Raise e => (failure file_path e, [])
  | Ok tree =>
      let '(loaded, stderr) :=
        match cfg with
        | Some c => (Ok c, [])
        | None => load_config fs getenv dir None
        end in
      let outcome :=
        config ← loaded;
        v ← visitor_visit tree (visitor_init (Some config));
        Ok {| success := true;
              result_functions := functions v;
              total_functions := Some (Z.of_nat (length (functions v)));
              config_used := Some (config_get config "name" (JStr "custom"));
              error := None; error_type := None; error_line := None |} in
      (match outcome with
       | Ok r => r
       | Raise e => failure file_path e
       end, stderr)
  end.

(** [main] past the reading of its arguments: the configuration is loaded
    outside any [try], so an exception there ends the process with no
    result ([None]). *)
Definition main (fs : list string -> config_file) (getenv : option string)
    (file_path : string) (dir : list string) (source : result node)
    (preset : option string) : option AnalysisResult * list string :=
  let '(loaded, stderr) := load_config fs getenv dir preset in
  match loaded with
  | Raise _ => (None, stderr)
  | Ok config =>
      let '(r, stderr') :=
        analyze_file fs getenv file_path dir source (Some config) in
      (Some r, stderr ++ stderr')
  end.

(** ** Syntax trees of the examples, as [ast.parse] builds them *)

Module Tree.

Definition at_ (ln col : Z) (end_ln end_col : Z) : option location :=
  Some {| lineno := ln; col_offset := col;
          end_lineno := Some end_ln; end_col_offset := Some end_col |}.

Definition str (s : string) : value := VAtom (AStr s).
Definition none : value := VAtom ANone.
Definition nodes (l : list node) : value := VList (map VAst l).

Definition Load : node := Node "Load" None [].
Definition Name (l : option location) (id : string) : node :=
  Node "Name" l [("id", str id); ("ctx", VAst Load)].
Definition Constant (l : option location) (v : atom) : node :=
  Node "Constant" l [("value", VAtom v); ("kind", none)].
Definition arg (l : option location) (a : string) : node :=
  Node "arg" l [("arg", str a); ("annotation", none); ("type_comment", none)].
Definition arguments (args : list node) : node :=
  Node "arguments" None
    [("posonlyargs", VList []); ("args", nodes args); ("vararg", none);
     ("kwonlyargs", VList []); ("kw_defaults", VList []); ("kwarg", none);
     ("defaults", VList [])].
Definition FunctionDef (l : option location) (name : string)
    (args : list node) (body : list node) : node :=
  Node "FunctionDef" l
    [("name", str name); ("args", VAst (arguments args));
     ("body", nodes body); ("decorator_list", VList []);
     ("returns", none); ("type_comment", none); ("type_params", VList [])].
Definition Module (body : list node) : node :=
  Node "Module" None [("body", nodes body); ("type_ignores", VList [])].
Definition Return (l : option location) (v : node) : node :=
  Node "Return" l [("value", VAst v)].
Definition Pass (l : option location) : node := Node "Pass" l [].
Definition If (l : option location) (test : node) (body orelse : list node)
    : node :=
  Node "If" l [("test", VAst test); ("body", nodes body);
               ("orelse", nodes orelse)].
Definition BoolOp (l : option location) (op : string) (values : list node)
    : node :=
  Node "BoolOp" l [("op", VAst (Node op None [])); ("values", nodes values)].
Definition UnaryOp (l : option location) (op : string) (operand : node)
    : node :=
  Node "UnaryOp" l [("op", VAst (Node op None [])); ("operand", VAst operand)].
Definition MatchValue (l : option location) (v : node) : node :=
  Node "MatchValue" l [("value", VAst v)].
Definition MatchAs (l : option location) (pattern name : value) : node :=
  Node "MatchAs" l [("pattern", pattern); ("name", name)].
Definition match_case (pattern : node) (body : list node) : node :=
  Node "match_case" None
    [("pattern", VAst pattern); ("guard", none); ("body", nodes body)].
Definition Match (l : option location) (subject : node) (cases : list node)
    : node :=
  Node "Match" l [("subject", VAst subject); ("cases", nodes cases)].

(** [def g(a, b):\n    return a and b or not a] *)
Definition g_body : node :=
  BoolOp (at_ 2 11 2 27) "Or"
    [ BoolOp (at_ 2 11 2 18) "And"
        [Name (at_ 2 11 2 12) "a"; Name (at_ 2 17 2 18) "b"];
      UnaryOp (at_ 2 22 2 27) "Not" (Name (at_ 2 26 2 27) "a") ].
Definition g : node :=
  FunctionDef (at_ 1 0 2 27) "g" [arg (at_ 1 6 1 7) "a"; arg (at_ 1 9 1 10) "b"]
    [Return (at_ 2 4 2 27) g_body].

(** [def h(a, b):\n    return a and b] *)
Definition h_chain : node :=
  BoolOp (at_ 2 11 2 18) "And"
    [Name (at_ 2 11 2 12) "a"; Name (at_ 2 17 2 18) "b"].
Definition h : node :=
  FunctionDef (at_ 1 0 2 18) "h" [arg (at_ 1 6 1 7) "a"; arg (at_ 1 9 1 10) "b"]
    [Return (at_ 2 4 2 18) h_chain].

(** [def m(x):\n    match x:\n        case 1:\n            pass\n
     case _:\n            pass] *)
Definition m_match : node :=
  Match (at_ 2 4 6 16) (Name (at_ 2 10 2 11) "x")
    [ match_case (MatchValue (at_ 3 13 3 14) (Constant (at_ 3 13 3 14) (AInt 1)))
        [Pass (at_ 4 12 4 16)];
      match_case (MatchAs (at_ 5 13 5 14) none none) [Pass (at_ 6 12 6 16)] ].
Definition m : node :=
  FunctionDef (at_ 1 0 6 16) "m" [arg (at_ 1 6 1 7) "x"] [m_match].

(** [def outer(x):\n    def inner(y):\n        if y:\n            pass\n
     return inner] *)
Definition inner : node :=
  FunctionDef (at_ 2 4 4 16) "inner" [arg (at_ 2 14 2 15) "y"]
    [If (at_ 3 8 4 16) (Name (at_ 3 11 3 12) "y") [Pass (at_ 4 12 4 16)] []].
Definition outer : node :=
  FunctionDef (at_ 1 0 5 16) "outer" [arg (at_ 1 10 1 11) "x"]
    [inner; Return (at_ 5 4 5 16) (Name (at_ 5 11 5 16) "inner")].

(** [def f(a):\n    if a:\n        return 1\n    return 0] *)
Definition f : node :=
  FunctionDef (at_ 1 0 4 12) "f" [arg (at_ 1 6 1 7) "a"]
    [ If (at_ 2 4 3 16) (Name (at_ 2 7 2 8) "a")
        [Return (at_ 3 8 3 16) (Constant (at_ 3 15 3 16) (AInt 1))] [];
      Return (at_ 4 4 4 12) (Constant (at_ 4 11 4 12) (AInt 0)) ].

(** [def p(x):\n    return x] *)
Definition p : node :=
  FunctionDef (at_ 1 0 2 12) "p" [arg (at_ 1 6 1 7) "x"]
    [Return (at_ 2 4 2 12) (Name (at_ 2 11 2 12) "x")].

End Tree.

(** ** The traversal as a sequence of nodes *)

(** [ast.iter_child_nodes]: the nodes directly below a node, in field
    order. *)
Definition item_nodes (v : value) : list node :=
  match v with
  | VAst n => [n]
  | _ => []
  end.

Definition value_nodes (v : value) : list node :=
  match v with
  | VAst n => [n]
  | VList items => flat_map item_nodes items
  | VAtom _ => []
  end.

Definition child_nodes (n : node) : list node :=
  flat_map (fun f => value_nodes f.2) (node_fields n).

(** The nodes of a subtree in the order a pass reaches them. *)
Fixpoint preorder (n : node) : list node :=
  match n with
  | Node _ _ fields =>
      n :: (fix in_fields (fs : list (string * value)) : list node :=
              match fs with
              | [] => []
              | (_, v) :: fs' =>
                  match v with
                  | VList items =>
                      (fix in_items (l : list value) : list node :=
                         match l with
                         | [] => []
                         | VAst item :: l' => preorder item ++ in_items l'
                         | _ :: l' => in_items l'
                         end) items
                  | VAst child => preorder child
                  | VAtom _ => []
                  end ++ in_fields fs'
              end) fields
  end.

(** The nodes of a function's own body: the traversal cut at every
    function definition nested below the root. *)
Definition is_function_def (n : node) : bool :=
  isinstance n "FunctionDef" || isinstance n "AsyncFunctionDef".

Fixpoint own_nodes (n : node) : list node :=
  match n with
  | Node _ _ fields =>
      n :: (fix in_fields (fs : list (string * value)) : list node :=
              match fs with
              | [] => []
              | (_, v) :: fs' =>
                  match v with
                  | VList items =>
                      (fix in_items (l : list value) : list node :=
                         match l with
                         | [] => []
                         | VAst item :: l' =>
                             (if is_function_def item then []
                              else own_nodes item) ++ in_items l'
                         | _ :: l' => in_items l'
                         end) items
                  | VAst child =>
                      if is_function_def child then [] else own_nodes child
                  | VAtom _ => []
                  end ++ in_fields fs'
              end) fields
  end.

(** What the head of [ComplexityCounter.visit] does at one node. *)
Definition on_node (cfg : config) (c : counter) (n : node) : counter :=
  simple_handlers_loop cfg n SIMPLE_HANDLERS c.

(** The counter after the first [i] nodes of the pass over [n]. *)
Definition after_steps (cfg : config) (n : node) (i : nat) : counter :=
  fold_left (on_node cfg) (take i (preorder n)) (counter_init true).

(** A node of one of the classes in [SIMPLE_HANDLERS], and one whose
    configuration flag is on. *)
Definition simple_key (n : node) : option string :=
  (fun h => h.2.2) <$> List.find (fun h => isinstance n h.1) SIMPLE_HANDLERS.

Definition counted (cfg : config) (n : node) : bool :=
  match simple_key n with
  | Some key => enabled cfg key
  | None => false
  end.

(** The decision-point constructs of the weight table: the simple classes,
    boolean chains, the four comprehension forms and [match]. *)
Definition decision_point (n : node) : bool :=
  bool_decide (node_cls n ∈
    ["If"; "While"; "For"; "ExceptHandler"; "Assert"; "With"; "IfExp";
     "BoolOp"; "ListComp"; "SetComp"; "DictComp"; "GeneratorExp"; "Match"]).

Definition sum_amounts (ds : list ComplexityDetail) : Z :=
  foldr (fun d s => amount d + s) 0 ds.

(** The score the scoping rule describes: base 1 plus one for every counted
    node of the function's own body. *)
Definition own_score (cfg : config) (n : node) : Z :=
  1 + Z.of_nat (length (List.filter (counted cfg) (own_nodes n))).

(** ** Notions used in the statements *)

(** The entry of [SIMPLE_HANDLERS] the loop stops at. *)
Definition simple_entry (n : node) : option (string * (string * string * string)) :=
  List.find (fun h => isinstance n h.1) SIMPLE_HANDLERS.

(** The score is 1 plus the amounts contributed so far. *)
Definition consistent (c : counter) : Prop :=
  complexity c = 1 + sum_amounts (details c).

(** The record [_visit_function] appends holds the outcome of one counting
    pass over the definition. *)
Definition record_of (cfg : config) (n : node) (info : function_info) : Prop :=
  fn_complexity info = complexity (count cfg n) /\
  fn_details info = details (count cfg n).

(** A node of one of the seven classes of [SIMPLE_HANDLERS]. *)
Definition is_simple (n : node) : bool :=
  match simple_key n with Some _ => true | None => false end.

(** What one node adds to the contribution list: nothing, or one entry of
    amount 1. *)
Definition contribution (cfg : config) (n : node) : list ComplexityDetail :=
  match simple_entry n with
  | Some (_, (type_name, desc, key)) =>
      if enabled cfg key then [Detail type_name (getattr_lineno n) 1 desc] else []
  | None => []
  end.

(** Whether a computation returned. *)
Definition is_Ok {A : Type} (r : result A) : bool :=
  match r with Ok _ => true | Raise _ => false end.

(** The override file the upward search stops at: the one in the nearest
    directory, at or above the file's own and below the root, that has
    one. *)
Definition nearest_override (fs : list string -> config_file)
    (dir found : list string) : Prop :=
  found <> [] /\ fs found <> Missing /\
  exists below, dir = found ++ below /\
    forall mid rest, below = mid ++ rest -> mid <> [] ->
                     fs (found ++ mid) = Missing.

(** The configuration resolved from the preset and the environment alone. *)
Definition preset_only (getenv preset : option string) : config :=
  match names_preset getenv with
  | Some p => p ∪ base_config preset
  | None => base_config preset
  end.

(** What the parser guarantees of a function definition: it has a name
    and a position. *)
Definition located_function (n : node) : bool :=
  negb (is_function_def n) ||
  (match assoc "name" (node_fields n) with Some _ => true | None => false end
   && match node_loc n with Some _ => true | None => false end).

(** A file system whose only override file, in [/home/proj], is not valid
    JSON. *)
Definition broken_fs (d : list string) : config_file :=
  if bool_decide (d = ["home"; "proj"])
  then Unloadable "Expecting value: line 1 column 1 (char 0)"
  else Missing.

(** ** Notions for discovery *)

(** The function definitions discovery reaches: those that do not lie
    inside another function definition, in traversal order. *)
Fixpoint outer_functions (n : node) : list node :=
  match n with
  | Node cls _ fields =>
      if bool_decide (cls = "FunctionDef") || bool_decide (cls = "AsyncFunctionDef")
      then [n]
      else
        (fix in_fields (fs : list (string * value)) : list node :=
           match fs with
           | [] => []
           | (_, v) :: fs' =>
               match v with
               | VList items =>
                   (fix in_items (l : list value) : list node :=
                      match l with
                      | [] => []
                      | VAst item :: l' => outer_functions item ++ in_items l'
                      | _ :: l' => in_items l'
                      end) items
               | VAst child => outer_functions child
               | VAtom _ => []
               end ++ in_fields fs'
           end) fields
  end.

(** A record that describes a definition: name, position and kind read off
    the node, score and contributions from one pass over it. *)
Definition describes (cfg : config) (fn : node) (info : function_info) : Prop :=
  getattr (VAst fn) "name" = Ok (fn_name info) /\
  attr_lineno fn = Ok (fn_line info) /\
  attr_col_offset fn = Ok (fn_col info) /\
  fn_end_line info = node_loc fn ≫= end_lineno /\
  fn_end_col info = node_loc fn ≫= end_col_offset /\
  fn_is_async info = isinstance fn "AsyncFunctionDef" /\
  fn_complexity info = complexity (count cfg fn) /\
  fn_details info = details (count cfg fn).

(** ** Notions for the pass *)

(** The configuration keys the head of [visit] looks up. *)
Definition simple_keys : list string :=
  map (fun h => h.2.2) SIMPLE_HANDLERS.

(** The contributions of the subtrees directly below a node, summed. *)
Definition children_score (cfg : config) (n : node) : Z :=
  foldr (fun ch s => (complexity (count cfg ch) - 1) + s) 0 (child_nodes n).

(** How many nodes of a class a subtree has. *)
Definition class_count (c : string) (n : node) : Z :=
  Z.of_nat (length (List.filter (fun x => isinstance x c) (preorder n))).

(** ** Notions for the named handlers *)

(** A counter after a run of contributions. *)
Definition add_all (ds : list ComplexityDetail) (c : counter) : counter :=
  fold_left (fun c d => _add_complexity (amount d) (type d) (line d) (description d) c)
            ds c.

(** A case whose pattern is the bare [_]: a [MatchAs] with no name.  The
    guard of the case is not looked at. *)
Definition bare_wildcard (case : value) : bool :=
  match getattr case "pattern" with
  | Ok pattern =>
      isinstance_value pattern "MatchAs" &&
      match getattr pattern "name" with Ok name => is_None name | Raise _ => false end
  | Raise _ => false
  end.

(** A case as the parser builds it: it has a pattern, and a [MatchAs]
    pattern has a name field. *)
Definition parsed_case (case : value) : bool :=
  match getattr case "pattern" with
  | Ok pattern =>
      negb (isinstance_value pattern "MatchAs") || is_Ok (getattr pattern "name")
  | Raise _ => false
  end.

(** The filters of one [for] clause of a comprehension. *)
Definition clause_ifs (comp : value) : list value :=
  match getattr comp "ifs" ≫= py_iter with
  | Ok ifs => ifs
  | Raise _ => []
  end.

(** What a comprehension with the given clauses contributes. *)
Definition comprehension_details (comp_type desc : string) (ln : Z)
    (count_ifs : bool) (generators : list value) : list ComplexityDetail :=
  flat_map (fun comp =>
    Detail comp_type ln 1 desc ::
    (if count_ifs
     then map (fun _ => Detail "comp_if" ln 1 "comprehension if") (clause_ifs comp)
     else [])) generators.

(** More syntax trees. *)
Module Tree2.

Definition comprehension (target iter : node) (ifs : list node) : node :=
  Node "comprehension" None
    [("target", VAst target); ("iter", VAst iter); ("ifs", Tree.nodes ifs);
     ("is_async", VAtom (AInt 0))].
Definition ListComp (l : option location) (elt : node) (generators : list node)
    : node :=
  Node "ListComp" l [("elt", VAst elt); ("generators", Tree.nodes generators)].

(** The inner chain [a and b] of [Tree.g]. *)
Definition g_and : node :=
  Tree.BoolOp (Tree.at_ 2 11 2 18) "And"
    [Tree.Name (Tree.at_ 2 11 2 12) "a"; Tree.Name (Tree.at_ 2 17 2 18) "b"].


(** [[x for x in xs if x if y for z in x]] on line 2. *)
Definition squares : node :=
  ListComp (Tree.at_ 2 11 2 47) (Tree.Name (Tree.at_ 2 12 2 13) "x")
    [ comprehension (Tree.Name (Tree.at_ 2 18 2 19) "x")
        (Tree.Name (Tree.at_ 2 23 2 25) "xs")
        [Tree.Name (Tree.at_ 2 29 2 30) "x"; Tree.Name (Tree.at_ 2 34 2 35) "y"];
      comprehension (Tree.Name (Tree.at_ 2 40 2 41) "z")
        (Tree.Name (Tree.at_ 2 45 2 46) "x") [] ].

End Tree2.

(** ** Notions for configuration resolution *)

(** The keys every preset defines. *)
Definition preset_keys : list string :=
  map fst (preset_entries "" "" false false false false false).

(** The value a JSON object gives a key: that of its last member with the
    key. *)
Definition object_get (members : list (string * json)) (k : string) : option json :=
  assoc k (rev members).

(** A file system with one override file, in [/home/proj], that switches
    [countIf] off and adds a key of its own. *)
Definition project_fs (d : list string) : config_file :=
  if bool_decide (d = ["home"; "proj"])
  then Loaded (JObj [("countIf", JBool false); ("team", JStr "core")])
  else Missing.

(** A file system whose override file, in [/home/proj], holds the number 1. *)
Definition number_fs (d : list string) : config_file :=
  if bool_decide (d = ["home"; "proj"]) then Loaded (JNum 1) else Missing.

(** ** The command line *)

(** [s.split(sep)] for a separator of one character: the text before the
    first separator, and the pieces after it. *)
Fixpoint split (sep : ascii) (s : string) : string * list string :=
  match s with
  | EmptyString => ("", [])
  | String a s' =>
      let '(x, rest) := split sep s' in
      if Ascii.eqb a sep then ("", x :: rest) else (String a x, rest)
  end.

(** The loop of [main] over [sys.argv] that reads [--preset=<name>] as
    [arg.split('=')[1]]; an argument with that prefix always has a second
    piece. *)
Definition preset_argument (argv : list string) : option string :=
  fold_left (fun preset arg =>
               if String.prefix "--preset=" arg
               then Some (default "" (head (split "=" arg).2))
               else preset)
            argv None.

(** ['--details' in sys.argv or '-d' in sys.argv]. *)
Definition show_details (argv : list string) : bool :=
  bool_decide ("--details" ∈ argv) || bool_decide ("-d" ∈ argv).

(** What [main] prints to standard output: the usage error or a result as
    JSON, or the detailed report. *)
Inductive printed : Type :=
  | UsageError
  | ResultJson (r : AnalysisResult)
  | DetailedOutput (r : AnalysisResult) (file_path : string).

Record process_end : Type := ProcessEnd {
  exit_code : Z;
  stdout : option printed;
  stderr : list string
}.

(** [main] from [sys.argv] on.  [dir_of] gives the directory of a path and
    [read] what reading and parsing it gives.  An exception that leaves
    [main] ends the process with status 1 and nothing on standard output. *)
Definition cli_main (fs : list string -> config_file) (getenv : option string)
    (dir_of : string -> list string) (read : string -> result node)
    (argv : list string) : process_end :=
  match argv with
  | [] | [_] => {| exit_code := 1; stdout := Some UsageError; stderr := [] |}
  | _ :: file_path :: _ =>
      match main fs getenv file_path (dir_of file_path) (read file_path)
                 (preset_argument argv) with
      | (None, err) => {| exit_code := 1; stdout := None; stderr := err |}
      | (Some r, err) =>
          {| exit_code := 0;
             stdout := Some (if show_details argv && success r
                             then DetailedOutput r file_path
                             else ResultJson r);
             stderr := err |}
      end
  end.

(** Whether a character occurs in a text. *)
Fixpoint has_char (a : ascii) (s : string) : bool :=
  match s with
  | EmptyString => false
  | String b s' => Ascii.eqb b a || has_char a s'
  end.

(** ** [compare_methods.py] and the report of [format_detailed_output] *)

(** [estimate_strict_complexity]: the score when there are no details, else
    1 plus the amounts of the details of basic control flow. *)
Definition estimate_strict_complexity (func : function_info) : Z :=
  match fn_details func with
  | [] => fn_complexity func
  | ds =>
      fold_left (fun strict detail =>
                   if bool_decide (type detail ∈
                        ["if"; "while"; "for"; "except"; "ternary"; "match_case"])
                   then strict + amount detail
                   else strict) ds 1
  end.

(** The dictionary [type_counts] that [compare_methods] builds from the
    details of one function. *)
Definition type_counts (ds : list ComplexityDetail) : gmap string Z :=
  fold_left (fun tc detail =>
               <[type detail := default 0 (tc !! type detail) + amount detail]> tc)
            ds ∅.

(** [type_counts.get(t, 0)]. *)
Definition counts_get (tc : gmap string Z) (t : string) : Z :=
  default 0 (tc !! t).

(** The items of the breakdown line of one function (built only for a
    function that has details; with none there is no item either). *)
Definition breakdown_items (tc : gmap string Z) : list string :=
  (if 0 <? counts_get tc "if"
   then ["if/elif: " +:+ pretty (counts_get tc "if")] else []) ++
  (if 0 <? counts_get tc "for"
   then ["loops: " +:+ pretty (counts_get tc "for" + counts_get tc "while")]
   else []) ++
  (if 0 <? counts_get tc "bool_op"
   then ["and/or: " +:+ pretty (counts_get tc "bool_op")] else []) ++
  (if 0 <? counts_get tc "list_comp"
   then ["comprehensions: " +:+
         pretty (counts_get tc "list_comp" + counts_get tc "dict_comp"
                 + counts_get tc "set_comp")]
   else []).

(** [sum(1 for f in functions if p(f))]. *)
Definition count_where (p : Z -> bool) (fs : list function_info) : Z :=
  Z.of_nat (length (List.filter (fun f => p (fn_complexity f)) fs)).

(** The four classes of the distribution [compare_methods] prints. *)
Definition low := count_where (fun c => c <=? 10).
Definition medium := count_where (fun c => (10 <? c) && (c <=? 15)).
Definition high := count_where (fun c => (15 <? c) && (c <=? 20)).
Definition very_high := count_where (fun c => 20 <? c).

(** [high_complexity] of [format_detailed_output]. *)
Definition high_complexity := count_where (fun c => 15 <? c).

(** The amounts of the details of one type, summed. *)
Definition type_sum (t : string) (ds : list ComplexityDetail) : Z :=
  sum_amounts (List.filter (fun d => bool_decide (type d = t)) ds).

(** ** [test_env.py] *)

(** Python's [>=] on tuples of integers. *)
Fixpoint tuple_ge (a b : list Z) : bool :=
  match a, b with
  | _, [] => true
  | [], _ :: _ => false
  | x :: a', y :: b' => if x =? y then tuple_ge a' b' else y <? x
  end.

(** [test_environment]: the two entries the caller acts on.  Of
    [sys.version_info] the numbers come first; the comparison with [(3, 6)]
    never gets to the release level behind them. *)
Record environment : Type := Environment {
  compatible : bool;
  has_ast : bool
}.

Definition test_environment (major minor micro : Z) (ast_imports : bool)
    : environment :=
  {| compatible := tuple_ge [major; minor; micro] [3; 6] && ast_imports;
     has_ast := ast_imports |}.

(** The exit status of the script. *)
Definition test_env_exit (major minor micro : Z) (ast_imports : bool) : Z :=
  if compatible (test_environment major minor micro ast_imports) then 0 else 1.

(** ** Tactics *)

(** Case analysis on the handler entry of a node. *)
Ltac case_entry n :=
  destruct (simple_entry n) as [[?cl [[?ty ?desc] ?key]]|].

(** Membership in, and absence from, an explicit list. *)
Ltac in_list :=
  apply list_elem_of_In; vm_compute;
  repeat (first [left; reflexivity | right]).

Ltac not_in_list H :=
  repeat (apply elem_of_cons in H as [H|H]; [discriminate H|]);
  now apply elem_of_nil in H.

(** * Properties *)

(** ** Induction over syntax trees *)

Lemma node_ind' (P : node -> Prop) :
  (forall n, Forall P (child_nodes n) -> P n) -> forall n, P n.
Proof.
  intros H. fix IH 1. intros [cls loc fields]. apply H.
  unfold child_nodes; simpl.
  induction fields as [|[k v] fs IHfs]; simpl; [constructor|].
  apply Forall_app; split; [|exact IHfs].
  destruct v as [c | items | a]; simpl.
  - constructor; [apply IH | constructor].
  - induction items as [|i items IHi]; simpl; [constructor|].
    apply Forall_app; split; [|exact IHi].
    destruct i; simpl; try constructor; [apply IH | constructor].
  - constructor.
Qed.

Lemma preorder_unfold (n : node) :
  preorder n = n :: flat_map preorder (child_nodes n).
Proof.
  destruct n as [cls loc fields]; simpl; f_equal.
  unfold child_nodes; simpl.
  induction fields as [|[k v] fs IHfs]; simpl; [reflexivity|].
  rewrite flat_map_app, IHfs; f_equal.
  destruct v as [c | items | a]; simpl; [now rewrite app_nil_r| |reflexivity].
  induction items as [|i items IHi]; simpl; [reflexivity|].
  rewrite flat_map_app, <- IHi.
  destruct i; simpl; [now rewrite app_nil_r | reflexivity | reflexivity].
Qed.

Lemma fold_left_flat_map {A B S : Type} (f : S -> B -> S) (g : A -> list B)
    (l : list A) (s : S) :
  fold_left f (flat_map g l) s = fold_left (fun s a => fold_left f (g a) s) l s.
Proof.
  revert s; induction l as [|a l IH]; intros s; simpl; [reflexivity|].
  now rewrite fold_left_app, IH.
Qed.

(** The override, one level unfolded: the handler loop at the node, then
    the children in order. *)
Lemma visit_unfold (cfg : config) (n : node) (c : counter) :
  visit cfg n c =
  fold_left (fun c ch => visit cfg ch c) (child_nodes n) (on_node cfg c n).
Proof.
  destruct n as [cls loc fields].
  unfold child_nodes, on_node; cbn [visit node_fields].
  generalize (simple_handlers_loop cfg (Node cls loc fields) SIMPLE_HANDLERS c).
  clear c. induction fields as [|[k v] fs IHfs]; intros c; simpl; [reflexivity|].
  rewrite fold_left_app, IHfs. f_equal.
  destruct v as [ch | items | a]; simpl; [reflexivity| |reflexivity].
  revert c. induction items as [|i items IHi]; intros c; simpl; [reflexivity|].
  rewrite fold_left_app.
  destruct i; simpl; apply IHi.
Qed.

(** [generic_visit] runs the override over the children in order. *)
Lemma generic_visit_children (cfg : config) (n : node) (c : counter) :
  generic_visit cfg n c =
  fold_left (fun c ch => visit cfg ch c) (child_nodes n) c.
Proof.
  unfold generic_visit, child_nodes.
  revert c. induction (node_fields n) as [|[k v] fs IHfs]; intros c; simpl;
    [reflexivity|].
  rewrite fold_left_app, IHfs. f_equal.
  destruct v as [ch | items | a]; simpl; [reflexivity| |reflexivity].
  revert c. induction items as [|i items IHi]; intros c; simpl; [reflexivity|].
  rewrite fold_left_app, IHi. f_equal. now destruct i.
Qed.

(** [visit] is the handler loop followed by [generic_visit]. *)
Lemma visit_generic_visit (cfg : config) (n : node) (c : counter) :
  visit cfg n c = generic_visit cfg n (on_node cfg c n).
Proof. now rewrite visit_unfold, generic_visit_children. Qed.

(** A pass is the handler loop run over the nodes of the subtree in
    pre-order. *)
Lemma visit_preorder (cfg : config) (n : node) :
  forall c, visit cfg n c = fold_left (on_node cfg) (preorder n) c.
Proof.
  induction n as [n IH] using node_ind'; intros c.
  rewrite visit_unfold, preorder_unfold; simpl.
  rewrite fold_left_flat_map.
  generalize (on_node cfg c n). clear c.
  induction IH as [|ch chs Hch _ IHchs]; intros c; simpl; [reflexivity|].
  now rewrite Hch, IHchs.
Qed.

Lemma after_all_steps (cfg : config) (n : node) :
  after_steps cfg n (length (preorder n)) = count cfg n.
Proof.
  unfold after_steps, count. now rewrite firstn_all, visit_preorder.
Qed.

(** ** One step of a pass *)

Section Pass.

Context (cfg : config).

Lemma simple_handlers_loop_find (n : node) (c : counter)
    (handlers : list (string * (string * string * string))) :
  simple_handlers_loop cfg n handlers c =
  match List.find (fun h => isinstance n h.1) handlers with
  | Some (_, (type_name, desc, key)) =>
      if enabled cfg key
      then _add_complexity 1 type_name (getattr_lineno n) desc c
      else c
  | None => c
  end.
Proof.
  induction handlers as [|[cl [[ty desc] key]] rest IH]; simpl; [reflexivity|].
  destruct (isinstance n cl); [reflexivity | exact IH].
Qed.

Lemma on_node_spec (c : counter) (n : node) :
  on_node cfg c n =
  match simple_entry n with
  | Some (_, (type_name, desc, key)) =>
      if enabled cfg key
      then _add_complexity 1 type_name (getattr_lineno n) desc c
      else c
  | None => c
  end.
Proof. apply simple_handlers_loop_find. Qed.

Lemma counted_spec (n : node) :
  counted cfg n =
  match simple_entry n with
  | Some (_, (_, _, key)) => enabled cfg key
  | None => false
  end.
Proof.
  unfold counted, simple_key, simple_entry.
  destruct (List.find _ SIMPLE_HANDLERS) as [[cl [[ty desc] key]]|]; reflexivity.
Qed.

Lemma on_node_complexity (c : counter) (n : node) :
  complexity (on_node cfg c n) =
  complexity c + (if counted cfg n then 1 else 0).
Proof.
  rewrite on_node_spec, counted_spec.
  case_entry n; [|lia].
  destruct (enabled cfg key); simpl; lia.
Qed.

Lemma on_node_collect (c : counter) (n : node) :
  collect_details (on_node cfg c n) = collect_details c.
Proof.
  rewrite on_node_spec.
  case_entry n; [|reflexivity].
  now destruct (enabled cfg key).
Qed.

Lemma on_node_not_counted (c : counter) (n : node) :
  counted cfg n = false -> on_node cfg c n = c.
Proof.
  rewrite on_node_spec, counted_spec.
  case_entry n; [|reflexivity].
  now intros ->.
Qed.

Lemma steps_complexity (l : list node) (c : counter) :
  complexity (fold_left (on_node cfg) l c) =
  complexity c + Z.of_nat (length (List.filter (counted cfg) l)).
Proof.
  revert c; induction l as [|n l IH]; intros c; simpl; [lia|].
  rewrite IH, on_node_complexity.
  destruct (counted cfg n); simpl length; lia.
Qed.

Lemma steps_collect (l : list node) (c : counter) :
  collect_details (fold_left (on_node cfg) l c) = collect_details c.
Proof.
  revert c; induction l as [|n l IH]; intros c; simpl; [reflexivity|].
  now rewrite IH, on_node_collect.
Qed.

(** The whole pass counts the enabled simple nodes of the subtree. *)
Lemma count_complexity (n : node) :
  complexity (count cfg n) =
  1 + Z.of_nat (length (List.filter (counted cfg) (preorder n))).
Proof. unfold count. now rewrite visit_preorder, steps_complexity. Qed.

(** ** The invariant between score and contributions *)

Lemma sum_amounts_app (ds1 ds2 : list ComplexityDetail) :
  sum_amounts (ds1 ++ ds2) = sum_amounts ds1 + sum_amounts ds2.
Proof.
  unfold sum_amounts. induction ds1 as [|d ds1 IH]; simpl; [lia|].
  simpl in IH. lia.
Qed.

Lemma add_complexity_consistent (amt : Z) (ty : string) (ln : Z) (desc : string)
    (c : counter) :
  collect_details c = true -> consistent c ->
  consistent (_add_complexity amt ty ln desc c).
Proof.
  unfold consistent; intros Hc H; simpl. rewrite Hc, sum_amounts_app, H.
  unfold sum_amounts; simpl. lia.
Qed.

Lemma on_node_consistent (c : counter) (n : node) :
  collect_details c = true -> consistent c -> consistent (on_node cfg c n).
Proof.
  intros Hc H. rewrite on_node_spec.
  case_entry n; [|exact H].
  destruct (enabled cfg key); [|exact H].
  now apply add_complexity_consistent.
Qed.

Lemma steps_consistent (l : list node) (c : counter) :
  collect_details c = true -> consistent c ->
  consistent (fold_left (on_node cfg) l c).
Proof.
  revert c; induction l as [|n l IH]; intros c Hc H; simpl; [exact H|].
  apply IH; [now rewrite on_node_collect | now apply on_node_consistent].
Qed.

Lemma count_consistent (n : node) : consistent (count cfg n).
Proof.
  unfold count. rewrite visit_preorder.
  apply steps_consistent; [reflexivity|]. unfold consistent; simpl. reflexivity.
Qed.

End Pass.

(** ** Functions without decision points *)

Lemma decision_point_counted (cfg : config) (n : node) :
  decision_point n = false -> counted cfg n = false.
Proof.
  intros H. apply bool_decide_eq_false in H.
  rewrite counted_spec. unfold simple_entry, isinstance; simpl.
  repeat (case_bool_decide; [exfalso; apply H; set_solver|]).
  reflexivity.
Qed.

Lemma steps_none_counted (cfg : config) (l : list node) (c : counter) :
  Forall (fun x => counted cfg x = false) l -> fold_left (on_node cfg) l c = c.
Proof.
  intros H; revert c; induction H as [|n l Hn _ IH]; intros c; simpl;
    [reflexivity|].
  now rewrite (on_node_not_counted _ _ _ Hn).
Qed.

(** C8: a function whose subtree holds no decision-point construct comes out
    of the counting pass with complexity exactly 1 and an empty list of
    contributions, whatever the configuration. *)
Theorem C8_no_decision_points (cfg : config) (n : node) :
  Forall (fun x => decision_point x = false) (preorder n) ->
  complexity (count cfg n) = 1 /\ details (count cfg n) = [].
Proof.
  intros H. unfold count. rewrite visit_preorder, steps_none_counted.
  - split; reflexivity.
  - eapply Forall_impl; [exact H|]. intros x. apply decision_point_counted.
Qed.

(** The function [def p(x): return x] has no decision point. *)
Lemma C8_no_decision_points_witness :
  Forall (fun x => decision_point x = false) (preorder Tree.p) /\
  complexity (count standard Tree.p) = 1 /\ details (count standard Tree.p) = [].
Proof.
  assert (H : Forall (fun x => decision_point x = false) (preorder Tree.p)).
  { apply (bool_decide_unpack _). vm_compute. exact I. }
  split; [exact H | exact (C8_no_decision_points standard Tree.p H)].
Defined.

(** ** Discovery *)

Lemma for_each_app {A S : Type} (body : A -> S -> result S) (l1 l2 : list A)
    (s : S) :
  for_each body (l1 ++ l2) s = s' ← for_each body l1 s; for_each body l2 s'.
Proof.
  revert s; induction l1 as [|x l1 IH]; intros s; simpl; [reflexivity|].
  destruct (body x s) as [s'|e]; simpl; [apply IH | reflexivity].
Qed.

(** Discovery, one level unfolded: a function definition gets its record
    and is not entered; any other node hands over to its children. *)
Lemma visitor_visit_unfold (n : node) (v : visitor) :
  visitor_visit n v =
  if bool_decide (node_cls n = "FunctionDef") then _visit_function n false v
  else if bool_decide (node_cls n = "AsyncFunctionDef")
       then _visit_function n true v
  else _ ← visit_Constant_value n; for_each visitor_visit (child_nodes n) v.
Proof.
  destruct n as [cls loc fields]. cbn [visitor_visit node_cls].
  do 2 (case_bool_decide; [reflexivity|]).
  destruct (visit_Constant_value (Node cls loc fields)) as [x0|e0];
    cbn [mbind result_bind]; [|reflexivity].
  unfold child_nodes; cbn [node_fields]. clear.
  revert v. induction fields as [|[k x] fs IHfs]; intros v; simpl; [reflexivity|].
  rewrite for_each_app.
  assert (E : forall items v,
    (fix visit_items (l : list value) (v : visitor) : result visitor :=
       match l with
       | [] => Ok v
       | VAst item :: l' => v ← visitor_visit item v; visit_items l' v
       | _ :: l' => visit_items l' v
       end) items v = for_each visitor_visit (flat_map item_nodes items) v).
  { clear. induction items as [|i items IHi]; intros v; simpl; [reflexivity|].
    destruct i as [item| |]; simpl; try apply IHi.
    destruct (visitor_visit item v); simpl; [apply IHi | reflexivity]. }
  destruct x as [ch | items | a]; simpl.
  - destruct (visitor_visit ch v) as [v'|e]; simpl; [apply IHfs | reflexivity].
  - rewrite E.
    destruct (for_each visitor_visit (flat_map item_nodes items) v) as [v'|e];
      simpl; [apply IHfs | reflexivity].
  - apply IHfs.
Qed.

Lemma _visit_function_record (n : node) (is_async : bool) (v v' : visitor) :
  _visit_function n is_async v = Ok v' ->
  visitor_config v' = visitor_config v /\
  exists info, functions v' = functions v ++ [info] /\
               record_of (visitor_config v) n info.
Proof.
  unfold _visit_function. intros H.
  destruct (getattr (VAst n) "name") as [name|]; [|discriminate].
  destruct (attr_lineno n) as [ln|]; [|discriminate].
  destruct (attr_col_offset n) as [col|]; [|discriminate].
  simpl in H. injection H as <-. split; [reflexivity|].
  eexists; split; [reflexivity|]. split; reflexivity.
Qed.

(** Every record discovery adds belongs to a node of the tree. *)
Lemma visitor_visit_records (n : node) :
  forall v v', visitor_visit n v = Ok v' ->
  visitor_config v' = visitor_config v /\
  exists new, functions v' = functions v ++ new /\
    Forall (fun info => exists fn, fn ∈ preorder n /\
                                   record_of (visitor_config v) fn info) new.
Proof.
  induction n as [n IH] using node_ind'; intros v v' H.
  rewrite visitor_visit_unfold in H.
  assert (Hfn : forall a, _visit_function n a v = Ok v' ->
    visitor_config v' = visitor_config v /\
    exists new, functions v' = functions v ++ new /\
      Forall (fun info => exists fn, fn ∈ preorder n /\
                                     record_of (visitor_config v) fn info) new).
  { intros a Ha. apply _visit_function_record in Ha as [Hc [info [Hf Hr]]].
    split; [exact Hc|]. exists [info]; split; [exact Hf|].
    constructor; [|constructor]. exists n; split; [|exact Hr].
    rewrite preorder_unfold. left. }
  case_bool_decide; [now apply (Hfn false)|].
  case_bool_decide; [now apply (Hfn true)|].
  destruct (visit_Constant_value n) as [x0|e0]; cbn [mbind result_bind] in H;
    [|discriminate H].
  clear Hfn. rewrite preorder_unfold.
  revert v H. induction IH as [|ch chs Hch _ IHchs]; intros v H; simpl in H.
  - injection H as <-. split; [reflexivity|]. exists []. rewrite app_nil_r.
    split; [reflexivity | constructor].
  - destruct (visitor_visit ch v) as [v1|] eqn:E1; [|discriminate]. simpl in H.
    apply Hch in E1 as [Hc1 [new1 [Hf1 Hr1]]].
    apply IHchs in H as [Hc2 [new2 [Hf2 Hr2]]].
    split; [congruence|]. exists (new1 ++ new2). split.
    + rewrite Hf2, Hf1. now rewrite app_assoc.
    + apply Forall_app; split.
      * eapply Forall_impl; [exact Hr1|]. intros info [fn [Hin Hr]].
        exists fn; split; [|exact Hr]. simpl. right. apply elem_of_app. now left.
      * eapply Forall_impl; [exact Hr2|]. intros info [fn [Hin Hr]].
        exists fn; split; [|now rewrite <- Hc1].
        simpl. apply elem_of_cons in Hin as [->|Hin]; [left|].
        right. apply elem_of_app. now right.
Qed.

(** C9: with details collected, every increment of the score appends exactly
    one contribution carrying the same amount; so the score is 1 plus the
    sum of the amounts after every step of a pass, at its end, and in every
    record discovery produces. *)
Theorem C9_score_is_one_plus_contributions (cfg : config) (n : node) :
  (forall amt ty ln desc c, collect_details c = true ->
     complexity (_add_complexity amt ty ln desc c) = complexity c + amt /\
     details (_add_complexity amt ty ln desc c) =
       details c ++ [Detail ty ln amt desc]) /\
  (forall i, consistent (after_steps cfg n i)) /\
  complexity (count cfg n) = 1 + sum_amounts (details (count cfg n)) /\
  (forall o v, visitor_visit n (visitor_init o) = Ok v ->
     Forall (fun info => fn_complexity info = 1 + sum_amounts (fn_details info))
            (functions v)).
Proof.
  repeat split.
  - simpl. now rewrite H.
  - intros i. apply steps_consistent; [reflexivity|].
    unfold consistent; reflexivity.
  - apply count_consistent.
  - intros o v H. apply visitor_visit_records in H as [_ [new [-> Hnew]]].
    simpl. eapply Forall_impl; [exact Hnew|].
    intros info [fn [_ [-> ->]]]. apply count_consistent.
Qed.

(** ** Monotonicity *)

Lemma filter_counted_le (c1 c2 : config) (l : list node) :
  (forall x, counted c1 x = true -> counted c2 x = true) ->
  (length (List.filter (counted c1) l) <= length (List.filter (counted c2) l))%nat.
Proof.
  intros H. induction l as [|x l IH]; simpl; [lia|].
  destruct (counted c1 x) eqn:E1.
  - rewrite (H x E1). simpl. lia.
  - destruct (counted c2 x); simpl; lia.
Qed.

Lemma count_mono (c1 c2 : config) (n : node) :
  (forall key, enabled c1 key = true -> enabled c2 key = true) ->
  complexity (count c1 n) <= complexity (count c2 n).
Proof.
  intros H. rewrite !count_complexity.
  apply Z.add_le_mono_l, Nat2Z.inj_le, filter_counted_le.
  intros x. rewrite !counted_spec.
  destruct (simple_entry x) as [[cl [[ty desc] key]]|]; [apply H | trivial].
Qed.

Lemma enabled_insert_true (cfg : config) (key key' : string) :
  enabled cfg key' = true -> enabled (<[key := JBool true]> cfg) key' = true.
Proof.
  unfold enabled, config_get. intros H.
  destruct (decide (key = key')) as [->|Hne].
  - now rewrite lookup_insert_eq.
  - now rewrite lookup_insert_ne.
Qed.

Lemma counted_preset_le (c1 c2 : config) :
  Forall (fun h => enabled c1 h.2.2 = true -> enabled c2 h.2.2 = true)
         SIMPLE_HANDLERS ->
  forall n, complexity (count c1 n) <= complexity (count c2 n).
Proof.
  intros H n. rewrite !count_complexity.
  apply Z.add_le_mono_l, Nat2Z.inj_le, filter_counted_le.
  intros x. rewrite !counted_spec. unfold simple_entry.
  destruct (List.find _ SIMPLE_HANDLERS) as [[cl [[ty desc] key]]|] eqn:E;
    [|trivial].
  apply find_some in E as [Hin _].
  rewrite Forall_forall in H. apply (H _ (proj2 (list_elem_of_In _ _) Hin)).
Qed.

Lemma steps_prefix_le (cfg : config) (l : list node) :
  forall (i k : nat) (c : counter),
  complexity (fold_left (on_node cfg) (take i l) c) <=
  complexity (fold_left (on_node cfg) (take (i + k) l) c).
Proof.
  induction l as [|x l IH]; intros i k c.
  - rewrite !take_nil. lia.
  - destruct i as [|i]; simpl.
    + rewrite steps_complexity. lia.
    + apply IH.
Qed.

(** C5: the final score never decreases when a flag is switched on, so the
    strict preset scores at most the standard one, which scores at most the
    comprehensive one; and within a pass the score starts at 1 and never
    decreases from one step to a later one. *)
Theorem C5_score_monotone (cfg : config) (n : node) :
  (forall key,
     complexity (count cfg n) <= complexity (count (<[key := JBool true]> cfg) n)) /\
  complexity (count strict_mccabe n) <= complexity (count standard n) /\
  complexity (count standard n) <= complexity (count comprehensive n) /\
  complexity (after_steps cfg n 0) = 1 /\
  (forall i k : nat,
     complexity (after_steps cfg n i) <= complexity (after_steps cfg n (i + k))) /\
  after_steps cfg n (length (preorder n)) = count cfg n.
Proof.
  split; [|split; [|split; [|split; [|split]]]].
  - intros key. apply count_mono. intros key'. apply enabled_insert_true.
  - apply counted_preset_le. repeat constructor; vm_compute; congruence.
  - apply counted_preset_le. repeat constructor; vm_compute; congruence.
  - reflexivity.
  - intros i k. apply steps_prefix_le.
  - apply after_all_steps.
Qed.

(** ** Flags missing from the configuration *)

(** A pass reads its configuration only through the truth of its flags. *)
Lemma on_node_ext (c1 c2 : config) :
  (forall key, enabled c1 key = enabled c2 key) ->
  forall c n, on_node c1 c n = on_node c2 c n.
Proof.
  intros H c n. rewrite !on_node_spec.
  destruct (simple_entry n) as [[cl [[ty desc] key]]|]; [|reflexivity].
  now rewrite H.
Qed.

Lemma visit_ext (c1 c2 : config) :
  (forall key, enabled c1 key = enabled c2 key) ->
  forall n c, visit c1 n c = visit c2 n c.
Proof.
  intros H n c. rewrite !visit_preorder.
  revert c. induction (preorder n) as [|x l IH]; intros c; simpl; [reflexivity|].
  now rewrite IH, (on_node_ext c1 c2 H).
Qed.

Lemma generic_visit_ext (c1 c2 : config) :
  (forall key, enabled c1 key = enabled c2 key) ->
  forall n c, generic_visit c1 n c = generic_visit c2 n c.
Proof.
  intros H n c. rewrite !generic_visit_children.
  revert c. induction (child_nodes n) as [|x l IH]; intros c; simpl;
    [reflexivity|].
  now rewrite IH, (visit_ext c1 c2 H).
Qed.

Lemma for_each_ext {A S : Type} (f g : A -> S -> result S) (l : list A) (s : S) :
  (forall x s, f x s = g x s) -> for_each f l s = for_each g l s.
Proof.
  intros H. revert s; induction l as [|x l IH]; intros s; simpl; [reflexivity|].
  rewrite H. destruct (g x s); simpl; [apply IH | reflexivity].
Qed.

Lemma bind_ext {A B : Type} (r : result A) (f g : A -> result B) :
  (forall a, f a = g a) -> r ≫= f = r ≫= g.
Proof. intros H. destruct r; simpl; [apply H | reflexivity]. Qed.

Lemma enabled_insert_absent (cfg : config) (key : string) :
  cfg !! key = None ->
  forall key', enabled (<[key := JBool true]> cfg) key' = enabled cfg key'.
Proof.
  intros Hnone key'. unfold enabled, config_get.
  destruct (decide (key = key')) as [<-|Hne].
  - now rewrite lookup_insert_eq, Hnone.
  - now rewrite lookup_insert_ne.
Qed.

Lemma enabled_empty (key : string) : enabled ∅ key = true.
Proof. unfold enabled, config_get. now rewrite lookup_empty. Qed.

Lemma enabled_comprehensive (key : string) : enabled comprehensive key = true.
Proof.
  unfold enabled, config_get.
  destruct (comprehensive !! key) as [j|] eqn:E; [|reflexivity].
  apply elem_of_list_to_map_2 in E. simpl.
  unfold preset_entries in E.
  repeat (apply elem_of_cons in E as [E|E]; [injection E as _ ->; reflexivity|]).
  now apply elem_of_nil in E.
Qed.

(** X27: a flag whose key the configuration lacks reads as true, in the
    head of [visit] and in every named handler alike: the pass, and each
    handler called directly, behaves as with the key set to true; the empty
    configuration gives the pass of the comprehensive preset, which counts
    one for each node of the seven simple classes. *)
Theorem absent_flag_reads_as_true (cfg : config) (key : string) :
  cfg !! key = None ->
  enabled cfg key = true /\
  (forall n c, visit cfg n c = visit (<[key := JBool true]> cfg) n c) /\
  (forall n c,
     visit_BoolOp cfg n c = visit_BoolOp (<[key := JBool true]> cfg) n c) /\
  (forall n ty desc c,
     _handle_comprehension cfg n ty desc c =
     _handle_comprehension (<[key := JBool true]> cfg) n ty desc c) /\
  (forall n c,
     visit_Match cfg n c = visit_Match (<[key := JBool true]> cfg) n c) /\
  (forall n, count ∅ n = count comprehensive n /\
             complexity (count ∅ n) =
             1 + Z.of_nat (length (List.filter is_simple (preorder n)))).
Proof.
  intros Hnone.
  pose proof (enabled_insert_absent cfg key Hnone) as H.
  assert (H' : forall k, enabled cfg k = enabled (<[key := JBool true]> cfg) k)
    by (intros k; now rewrite H).
  split; [|split; [|split; [|split; [|split]]]].
  - unfold enabled, config_get. now rewrite Hnone.
  - apply visit_ext, H'.
  - intros n c. unfold visit_BoolOp. rewrite H.
    apply bind_ext. intros c'. now rewrite (generic_visit_ext _ _ H').
  - intros n ty desc c. unfold _handle_comprehension. rewrite H.
    destruct (enabled cfg "countComprehension"); simpl; [|reflexivity].
    apply bind_ext. intros gens. apply for_each_ext. intros comp c'.
    apply bind_ext. intros ln. now rewrite H.
  - intros n c. unfold visit_Match. rewrite H.
    apply bind_ext. intros c'. now rewrite (generic_visit_ext _ _ H').
  - intros n. split.
    + apply visit_ext. intros k. now rewrite enabled_empty, enabled_comprehensive.
    + rewrite count_complexity.
      replace (List.filter (counted ∅) (preorder n))
        with (List.filter is_simple (preorder n)); [reflexivity|].
      apply List.filter_ext. intros x. unfold counted, is_simple.
      destruct (simple_key x); [now rewrite enabled_empty | reflexivity].
Qed.

(** A configuration that only switches [countIf] off still counts loops. *)
Lemma absent_flag_reads_as_true_witness :
  ({[ "countIf" := JBool false ]} : config) !! "countWhile" = None /\
  enabled {[ "countIf" := JBool false ]} "countWhile" = true.
Proof.
  assert (H : ({[ "countIf" := JBool false ]} : config) !! "countWhile" = None)
    by (vm_compute; reflexivity).
  split; [exact H|].
  exact (proj1 (absent_flag_reads_as_true _ _ H)).
Defined.

(** ** The contributions of a pass *)

Lemma on_node_contribution (cfg : config) (c : counter) (n : node) :
  collect_details c = true ->
  details (on_node cfg c n) = details c ++ contribution cfg n.
Proof.
  intros Hc. rewrite on_node_spec. unfold contribution.
  destruct (simple_entry n) as [[cl [[ty desc] key]]|];
    [|now rewrite app_nil_r].
  destruct (enabled cfg key); simpl; [now rewrite Hc | now rewrite app_nil_r].
Qed.

Lemma steps_details (cfg : config) (l : list node) (c : counter) :
  collect_details c = true ->
  details (fold_left (on_node cfg) l c) = details c ++ flat_map (contribution cfg) l.
Proof.
  revert c; induction l as [|n l IH]; intros c Hc; simpl;
    [now rewrite app_nil_r|].
  rewrite IH by now rewrite on_node_collect.
  now rewrite on_node_contribution, app_assoc.
Qed.

Lemma count_details (cfg : config) (n : node) :
  details (count cfg n) = flat_map (contribution cfg) (preorder n).
Proof. unfold count. now rewrite visit_preorder, steps_details. Qed.

Lemma count_complexity_details (cfg : config) (n : node) :
  complexity (count cfg n) =
  1 + sum_amounts (flat_map (contribution cfg) (preorder n)).
Proof. rewrite <- count_details. apply count_consistent. Qed.

(** Every contribution of a pass comes from [SIMPLE_HANDLERS] and has
    amount 1. *)
Lemma contribution_simple (cfg : config) (n : node) (d : ComplexityDetail) :
  d ∈ contribution cfg n ->
  amount d = 1 /\
  type d ∈ ["if"; "while"; "for"; "except"; "assert"; "with"; "ternary"].
Proof.
  unfold contribution, simple_entry, isinstance; simpl.
  repeat (case_bool_decide;
          [match goal with |- context [enabled cfg ?k] =>
             destruct (enabled cfg k) end;
           [intros ->%list_elem_of_singleton; split; [reflexivity | set_solver]
           |intros []%elem_of_nil]|]).
  intros []%elem_of_nil.
Qed.

Lemma count_details_simple (cfg : config) (n : node) :
  Forall (fun d => amount d = 1 /\
            type d ∈ ["if"; "while"; "for"; "except"; "assert"; "with"; "ternary"])
         (details (count cfg n)).
Proof.
  rewrite count_details. apply Forall_forall. intros d Hd.
  apply list_elem_of_In, in_flat_map in Hd as [x [_ Hd]].
  eapply contribution_simple. apply list_elem_of_In, Hd.
Qed.

(** A subtree's traversal is a contiguous part of the traversal of any tree
    that contains it. *)
Lemma preorder_infix (inner : node) (outer : node) :
  inner ∈ preorder outer ->
  exists l1 l2, preorder outer = l1 ++ preorder inner ++ l2.
Proof.
  induction outer as [outer IH] using node_ind'.
  rewrite preorder_unfold. intros [->|Hin]%elem_of_cons.
  - exists [], []. now rewrite app_nil_r, <- preorder_unfold.
  - apply list_elem_of_In, in_flat_map in Hin as [ch [Hch Hin]].
    apply in_split in Hch as [chs1 [chs2 Hch]].
    rewrite Hch in IH. apply Forall_app in IH as [_ IH].
    apply Forall_cons in IH as [IH _].
    destruct (IH (proj2 (list_elem_of_In _ _) Hin)) as [l1 [l2 E]].
    exists (outer :: flat_map preorder chs1 ++ l1), (l2 ++ flat_map preorder chs2).
    rewrite Hch, flat_map_app. simpl. rewrite E.
    now rewrite <- !app_assoc.
Qed.

(** ** Nested function definitions *)

(** C1, as the code has it: the pass over a function runs through every
    function definition nested inside it; the contributions of a pass over
    the nested definition sit, in order and in one block, inside the outer
    function's contributions, and the outer score is the nested score plus
    the amounts outside that block. *)
Theorem C1_outer_pass_includes_nested (cfg : config) (outer inner : node) :
  inner ∈ preorder outer ->
  exists before after,
    details (count cfg outer) = before ++ details (count cfg inner) ++ after /\
    complexity (count cfg outer) =
      complexity (count cfg inner) + sum_amounts before + sum_amounts after.
Proof.
  intros Hin. destruct (preorder_infix inner outer Hin) as [l1 [l2 E]].
  exists (flat_map (contribution cfg) l1), (flat_map (contribution cfg) l2).
  rewrite !count_complexity_details, !count_details, E, !flat_map_app.
  split; [reflexivity|]. rewrite !sum_amounts_app. lia.
Qed.

(** [inner] lies inside [outer]. *)
Lemma C1_outer_pass_includes_nested_witness :
  Tree.inner ∈ preorder Tree.outer /\
  exists before after,
    details (count standard Tree.outer) =
      before ++ details (count standard Tree.inner) ++ after /\
    complexity (count standard Tree.outer) =
      complexity (count standard Tree.inner)
      + sum_amounts before + sum_amounts after.
Proof.
  assert (H : Tree.inner ∈ preorder Tree.outer).
  { in_list. }
  split; [exact H|].
  exact (C1_outer_pass_includes_nested standard Tree.outer Tree.inner H).
Defined.

(** C1 fails as stated: in [outer], whose only decision point is the [if]
    inside the nested [inner], the outer score is 2 and not the 1 of its own
    body, and discovery over the module yields a single record, none for
    [inner]. *)
Lemma C1_nested_scoping_counterexample :
  is_function_def Tree.inner = true /\
  Tree.inner ∈ preorder Tree.outer /\
  own_score standard Tree.outer = 1 /\
  complexity (count standard Tree.outer) = 2 /\
  complexity (count standard Tree.outer) <> own_score standard Tree.outer /\
  exists v, visitor_visit (Tree.Module [Tree.outer]) (visitor_init (Some standard))
            = Ok v /\
            map fn_name (functions v) = [VAtom (AStr "outer")] /\
            map fn_complexity (functions v) = [2].
Proof.
  split; [reflexivity|]. split.
  { in_list. }
  split; [vm_compute; reflexivity|]. split; [vm_compute; reflexivity|].
  split; [vm_compute; discriminate|].
  eexists. split; [vm_compute; reflexivity|]. split; reflexivity.
Qed.

(** ** Constructs the pass never reaches *)

(** What [visit_BoolOp] does when called on a chain of [N] operands with
    boolean counting on: one contribution of amount [N - 1]. *)
Lemma visit_BoolOp_amount (cfg : config) (n : node) (c : counter)
    (op : value) (operands : list value) (l : location) :
  enabled cfg "countBoolOp" = true ->
  getattr (VAst n) "op" = Ok op ->
  isinstance_value op "And" || isinstance_value op "Or" = true ->
  getattr (VAst n) "values" = Ok (VList operands) ->
  node_loc n = Some l ->
  exists desc,
    visit_BoolOp cfg n c =
    Ok (generic_visit cfg n
          (_add_complexity (Z.of_nat (length operands) - 1) "bool_op"
             (lineno l) desc c)).
Proof.
  intros He Hop Hk Hv Hl.
  assert (Hln : attr_lineno n = Ok (lineno l))
    by (unfold attr_lineno; now rewrite Hl).
  unfold visit_BoolOp. rewrite He, Hop. cbn [mbind result_bind].
  rewrite Hk, Hv. cbn [mbind result_bind py_len]. rewrite Hln.
  eexists. reflexivity.
Qed.

(** C2 fails as stated: for [def g(a, b): return a and b or not a] the
    strict preset gives 1 and no contribution, but the standard preset does
    not give 2. *)
Lemma C2_standard_preset_counterexample :
  ~ (complexity (count strict_mccabe Tree.g) = 1 /\
     details (count strict_mccabe Tree.g) = [] /\
     complexity (count standard Tree.g) = 2).
Proof. intros [_ [_ H]]. vm_compute in H. discriminate H. Qed.

(** C2, as amended: for [def g(a, b): return a and b or not a] the strict
    preset, which has boolean counting off, gives complexity 1 and no
    contribution.  The expression holds two boolean chains of two operands
    each, [or] over [a and b] and [not a], and [and] over [a] and [b]; with
    the standard preset, which has boolean counting on, the handler for
    boolean chains adds exactly 1 for either of them. *)
Theorem C2_boolean_example_by_design :
  complexity (count strict_mccabe Tree.g) = 1 /\
  details (count strict_mccabe Tree.g) = [] /\
  enabled strict_mccabe "countBoolOp" = false /\
  enabled standard "countBoolOp" = true /\
  List.filter (fun x => isinstance x "BoolOp") (preorder Tree.g) =
    [Tree.g_body; Tree2.g_and] /\
  (forall c, exists desc,
     visit_BoolOp standard Tree.g_body c =
     Ok (generic_visit standard Tree.g_body
           (_add_complexity 1 "bool_op" 2 desc c))) /\
  (forall c, exists desc,
     visit_BoolOp standard Tree2.g_and c =
     Ok (generic_visit standard Tree2.g_and
           (_add_complexity 1 "bool_op" 2 desc c))).
Proof.
  split; [vm_compute; reflexivity|]. split; [vm_compute; reflexivity|].
  split; [vm_compute; reflexivity|]. split; [vm_compute; reflexivity|].
  split; [vm_compute; reflexivity|]. split; intros c.
  - destruct (visit_BoolOp_amount standard Tree.g_body c _ _ _
                eq_refl eq_refl eq_refl eq_refl eq_refl) as [desc H].
    exists desc. exact H.
  - destruct (visit_BoolOp_amount standard Tree2.g_and c _ _ _
                eq_refl eq_refl eq_refl eq_refl eq_refl) as [desc H].
    exists desc. exact H.
Qed.

(** C10, on the code: with the key [countBoolOp] or [countMatch] absent the
    lookup reads true, yet a pass under the empty configuration, or under
    one that only switches [countIf] off, counts neither the boolean chain
    of [def h(a, b): return a and b] nor the value case of the [match] in
    [m]; the handlers, called by hand under the empty configuration, add 1
    for each. *)
Theorem C10_absent_flag_construct_not_counted :
  (∅ : config) !! "countBoolOp" = None /\
  ({[ "countIf" := JBool false ]} : config) !! "countBoolOp" = None /\
  enabled ∅ "countBoolOp" = true /\
  enabled {[ "countIf" := JBool false ]} "countBoolOp" = true /\
  enabled ∅ "countMatch" = true /\
  Tree.h_chain ∈ preorder Tree.h /\
  complexity (count ∅ Tree.h) = 1 /\
  details (count ∅ Tree.h) = [] /\
  complexity (count {[ "countIf" := JBool false ]} Tree.h) = 1 /\
  complexity (count ∅ Tree.m) = 1 /\
  details (count ∅ Tree.m) = [] /\
  (details <$> visit_BoolOp ∅ Tree.h_chain (counter_init true)) =
    Ok [Detail "bool_op" 2 1 "1 and operator(s)"] /\
  (details <$> visit_Match ∅ Tree.m_match (counter_init true)) =
    Ok [Detail "match_case" 2 1 "match case"].
Proof.
  split; [reflexivity|]. split; [vm_compute; reflexivity|].
  split; [vm_compute; reflexivity|]. split; [vm_compute; reflexivity|].
  split; [vm_compute; reflexivity|]. split; [in_list|].
  repeat split; vm_compute; reflexivity.
Qed.

(** C3, on the code: no pass records a boolean chain; every contribution has
    amount 1 and one of the seven simple kinds.  For
    [def h(a, b): return a and b], a chain of two operands, the standard
    preset gives complexity 1 and no contribution, where the handler called
    by hand on the chain gives one contribution of amount 1. *)
Theorem C3_boolean_chain_not_counted :
  (forall cfg n,
     Forall (fun d => amount d = 1 /\ type d <> "bool_op") (details (count cfg n))) /\
  Tree.h_chain ∈ preorder Tree.h /\
  enabled standard "countBoolOp" = true /\
  complexity (count standard Tree.h) = 1 /\
  details (count standard Tree.h) = [] /\
  (details <$> visit_BoolOp standard Tree.h_chain (counter_init true)) =
    Ok [Detail "bool_op" 2 1 "1 and operator(s)"].
Proof.
  split.
  { intros cfg n. eapply Forall_impl; [apply count_details_simple|].
    intros d [Ha Ht]. split; [exact Ha|]. intros E. rewrite E in Ht.
    not_in_list Ht. }
  split.
  { in_list. }
  repeat split; vm_compute; reflexivity.
Qed.

(** C4, on the code: no pass records a pattern-match case.  For a [match]
    with one value case and the bare [_] case, the standard preset gives
    complexity 1 and no contribution, where the handler called by hand on
    the statement gives one contribution of amount 1, for the value case. *)
Theorem C4_match_cases_not_counted :
  (forall cfg n,
     Forall (fun d => type d <> "match_case") (details (count cfg n))) /\
  Tree.m_match ∈ preorder Tree.m /\
  enabled standard "countMatch" = true /\
  complexity (count standard Tree.m) = 1 /\
  details (count standard Tree.m) = [] /\
  (details <$> visit_Match standard Tree.m_match (counter_init true)) =
    Ok [Detail "match_case" 2 1 "match case"].
Proof.
  split.
  { intros cfg n. eapply Forall_impl; [apply count_details_simple|].
    intros d [_ Ht] E. rewrite E in Ht. not_in_list Ht. }
  split.
  { in_list. }
  repeat split; vm_compute; reflexivity.
Qed.

(** ** Configuration resolution *)

Lemma walk_up_skip (fs : list string -> config_file) (found : list string) :
  forall below,
  (forall mid rest, below = mid ++ rest -> mid <> [] ->
                    fs (found ++ mid) = Missing) ->
  walk_up fs (rev (found ++ below)) = walk_up fs (rev found).
Proof.
  induction below as [|x b IH] using rev_ind; intros H.
  - now rewrite app_nil_r.
  - rewrite app_assoc, rev_unit. cbn [walk_up].
    replace (rev (x :: rev (found ++ b))) with (found ++ (b ++ [x]))
      by (simpl; now rewrite rev_involutive, app_assoc).
    rewrite (H (b ++ [x]) []); [|now rewrite app_nil_r|now destruct b].
    apply IH. intros mid rest -> Hmid.
    apply (H mid (rest ++ [x])); [now rewrite app_assoc | exact Hmid].
Qed.

Lemma find_project_config_nearest (fs : list string -> config_file)
    (dir found : list string) :
  nearest_override fs dir found ->
  find_project_config fs dir =
  match fs found with
  | Loaded j => (j, [])
  | Unloadable e => (JNull, [warning found e])
  | Missing => (JNull, [])
  end.
Proof.
  intros [Hne [Hfs [below [-> Hbelow]]]]. unfold find_project_config.
  rewrite walk_up_skip by exact Hbelow.
  destruct (rev found) as [|x up] eqn:E.
  - apply (f_equal (@rev string)) in E. rewrite rev_involutive in E. now subst.
  - cbn [walk_up]. rewrite <- E, rev_involutive.
    destruct (fs found); [contradiction | reflexivity | reflexivity].
Qed.

Lemma find_project_config_missing (dir : list string) :
  find_project_config (fun _ => Missing) dir = (JNull, []).
Proof.
  unfold find_project_config. induction (rev dir) as [|x up IH];
    [reflexivity | exact IH].
Qed.





(** X26: when the override file the upward search finds cannot be loaded,
    the resolver prints one warning and returns the configuration of the
    preset and the environment alone, as it does with no override file at
    all; [main] returns the very result it returns with no override file,
    so the warning is no part of it, and that result reports success
    whenever the tree was read and discovery returned. *)
Theorem unloadable_override_is_ignored (fs : list string -> config_file)
    (getenv : option string) (file_path : string) (dir : list string)
    (source : result node) (preset : option string)
    (found : list string) (e : string) :
  nearest_override fs dir found ->
  fs found = Unloadable e ->
  let cfg := preset_only getenv preset in
  let r := (analyze_file (fun _ => Missing) getenv file_path dir source
              (Some cfg)).1 in
  find_project_config fs dir = (JNull, [warning found e]) /\
  load_config fs getenv dir preset = (Ok cfg, [warning found e]) /\
  load_config (fun _ => Missing) getenv dir preset = (Ok cfg, []) /\
  (getenv = None -> cfg = base_config preset) /\
  main fs getenv file_path dir source preset = (Some r, [warning found e]) /\
  main (fun _ => Missing) getenv file_path dir source preset = (Some r, []) /\
  (forall tree v, source = Ok tree ->
     visitor_visit tree (visitor_init (Some cfg)) = Ok v ->
     success r = true /\ error r = None /\
     config_used r = Some (config_get cfg "name" (JStr "custom")) /\
     result_functions r = functions v).
Proof.
  intros Hnear Hfs cfg r.
  assert (Hfind : find_project_config fs dir = (JNull, [warning found e])).
  { rewrite (find_project_config_nearest fs dir found Hnear). now rewrite Hfs. }
  assert (Hload : load_config fs getenv dir preset = (Ok cfg, [warning found e])).
  { unfold load_config. rewrite Hfind. reflexivity. }
  assert (Hload0 : load_config (fun _ => Missing) getenv dir preset = (Ok cfg, [])).
  { unfold load_config. rewrite find_project_config_missing. reflexivity. }
  assert (Han : forall fs', analyze_file fs' getenv file_path dir source (Some cfg)
                            = (r, [])).
  { intros fs'. unfold r, analyze_file. destruct source as [tree|ex];
      [|reflexivity]. cbn [mbind result_bind fst].
    destruct (visitor_visit tree (visitor_init (Some cfg))); reflexivity. }
  split; [exact Hfind|]. split; [exact Hload|]. split; [exact Hload0|].
  split; [intros ->; reflexivity|].
  split; [unfold main; rewrite Hload, Han; reflexivity|].
  split; [unfold main; rewrite Hload0, Han; reflexivity|].
  intros tree v -> Hv. unfold r, analyze_file. cbn [mbind result_bind fst].
  rewrite Hv. cbn [success error config_used result_functions].
  repeat split.
Qed.

(** A file in [/home/proj/src], a broken override file in [/home/proj], the
    strict preset asked for. *)
Lemma unloadable_override_is_ignored_witness :
  nearest_override broken_fs ["home"; "proj"; "src"] ["home"; "proj"] /\
  load_config broken_fs None ["home"; "proj"; "src"] (Some "strict_mccabe") =
    (Ok strict_mccabe,
     ["Warning: Failed to load /home/proj/.complexity.json: Expecting value: line 1 column 1 (char 0)"]) /\
  exists r,
    main broken_fs None "src/f.py" ["home"; "proj"; "src"]
         (Ok (Tree.Module [Tree.f])) (Some "strict_mccabe") =
      (Some r,
       ["Warning: Failed to load /home/proj/.complexity.json: Expecting value: line 1 column 1 (char 0)"]) /\
    success r = true /\
    map fn_complexity (result_functions r) = [2] /\
    config_used r = Some (JStr "Strict McCabe").
Proof.
  assert (Hnear : nearest_override broken_fs ["home"; "proj"; "src"] ["home"; "proj"]).
  { split; [discriminate|]. split; [vm_compute; discriminate|].
    exists ["src"]. split; [reflexivity|]. intros mid rest E Hmid.
    destruct mid as [|x mid]; [contradiction|]. injection E as <- E.
    destruct mid; [|discriminate]. vm_compute. reflexivity. }
  pose proof (unloadable_override_is_ignored broken_fs None "src/f.py"
                ["home"; "proj"; "src"] (Ok (Tree.Module [Tree.f]))
                (Some "strict_mccabe") ["home"; "proj"] _ Hnear eq_refl)
    as [_ [Hload [_ [_ [Hmain _]]]]].
  split; [exact Hnear|]. split; [exact Hload|].
  eexists. split; [exact Hmain|].
  split; [vm_compute; reflexivity|]. split; vm_compute; reflexivity.
Defined.

(** C6, on the code: an override file that holds the number 1 loads, but is
    no mapping: resolution prints no warning and raises a type error, and
    [main] ends with no result.  An override file in the same place that
    cannot be loaded gives one warning and the successful result of the
    analysis without override. *)
Theorem C6_non_mapping_override_aborts :
  nearest_override number_fs ["home"; "proj"; "src"] ["home"; "proj"] /\
  number_fs ["home"; "proj"] = Loaded (JNum 1) /\
  find_project_config number_fs ["home"; "proj"; "src"] = (JNum 1, []) /\
  load_config number_fs None ["home"; "proj"; "src"] None = (Raise TypeError, []) /\
  main number_fs None "src/f.py" ["home"; "proj"; "src"]
       (Ok (Tree.Module [Tree.f])) None = (None, []) /\
  main broken_fs None "src/f.py" ["home"; "proj"; "src"]
       (Ok (Tree.Module [Tree.f])) None =
    ((main (fun _ => Missing) None "src/f.py" ["home"; "proj"; "src"]
           (Ok (Tree.Module [Tree.f])) None).1,
     [warning ["home"; "proj"] "Expecting value: line 1 column 1 (char 0)"]) /\
  (success <$> (main (fun _ => Missing) None "src/f.py" ["home"; "proj"; "src"]
                     (Ok (Tree.Module [Tree.f])) None).1) = Some true.
Proof.
  split.
  { split; [discriminate|]. split; [vm_compute; discriminate|].
    exists ["src"]. split; [reflexivity|]. intros mid rest E Hmid.
    destruct mid as [|x mid]; [contradiction|]. injection E as <- E.
    destruct mid; [|discriminate]. vm_compute. reflexivity. }
  repeat split; vm_compute; reflexivity.
Qed.


(** * Further properties of the analyzer *)

(** ** Discovery *)

Lemma outer_functions_unfold (n : node) :
  outer_functions n =
  if is_function_def n then [n] else flat_map outer_functions (child_nodes n).
Proof.
  destruct n as [cls loc fields]. unfold is_function_def, isinstance.
  cbn [outer_functions node_cls].
  destruct (bool_decide (cls = "FunctionDef") || bool_decide (cls = "AsyncFunctionDef"));
    [reflexivity|].
  unfold child_nodes; cbn [node_fields].
  induction fields as [|[k v] fs IHfs]; simpl; [reflexivity|].
  rewrite flat_map_app, IHfs; f_equal.
  destruct v as [c | items | a]; simpl; [now rewrite app_nil_r| |reflexivity].
  induction items as [|i items IHi]; simpl; [reflexivity|].
  rewrite flat_map_app, <- IHi.
  destruct i; simpl; [now rewrite app_nil_r | reflexivity | reflexivity].
Qed.

Lemma _visit_function_describes (n : node) (is_async : bool) (v v' : visitor) :
  is_async = isinstance n "AsyncFunctionDef" ->
  _visit_function n is_async v = Ok v' ->
  exists info, functions v' = functions v ++ [info] /\
               describes (visitor_config v) n info /\
               current_function v' = current_function v /\
               visitor_config v' = visitor_config v.
Proof.
  intros Ha H. unfold _visit_function in H. unfold describes.
  destruct (getattr (VAst n) "name") as [name|]; [|discriminate].
  destruct (attr_lineno n) as [ln|]; [|discriminate].
  destruct (attr_col_offset n) as [col|]; [|discriminate].
  simpl in H. injection H as <-. eexists. split; [reflexivity|].
  simpl. rewrite Ha. repeat split.
Qed.

Lemma visitor_visit_describes (n : node) (v v' : visitor) :
  visitor_visit n v = Ok v' ->
  exists new,
    functions v' = functions v ++ new /\
    Forall2 (describes (visitor_config v)) (outer_functions n) new /\
    current_function v' = current_function v /\
    visitor_config v' = visitor_config v.
Proof.
  revert v v'. induction n as [n IH] using node_ind'. intros v v' H.
  rewrite visitor_visit_unfold in H. rewrite outer_functions_unfold.
  unfold is_function_def, isinstance.
  assert (Hfn : forall a, a = isinstance n "AsyncFunctionDef" ->
            _visit_function n a v = Ok v' ->
            exists new, functions v' = functions v ++ new /\
              Forall2 (describes (visitor_config v)) [n] new /\
              current_function v' = current_function v /\
              visitor_config v' = visitor_config v).
  { intros a Ha Hv.
    destruct (_visit_function_describes n a v v' Ha Hv) as [info [Hf [Hd [Hc Hg]]]].
    exists [info]. split; [exact Hf|]. split; [|split; assumption].
    constructor; [exact Hd | constructor]. }
  case_bool_decide as E1.
  { apply (Hfn false); [|exact H]. unfold isinstance. rewrite E1.
    symmetry. now apply bool_decide_eq_false. }
  case_bool_decide as E2.
  { apply (Hfn true); [|exact H]. unfold isinstance. rewrite E2.
    symmetry. now apply bool_decide_eq_true. }
  cbn [orb]. clear Hfn.
  destruct (visit_Constant_value n) as [x0|e0]; cbn [mbind result_bind] in H;
    [|discriminate H].
  revert v H.
  induction IH as [|ch chs Hch _ IHchs]; intros v H; simpl in H.
  - injection H as <-. exists []. rewrite app_nil_r. repeat split. constructor.
  - destruct (visitor_visit ch v) as [v1|] eqn:Hv1; [|discriminate]. simpl in H.
    destruct (Hch _ _ Hv1) as [new1 [Hf1 [Hd1 [Hc1 Hg1]]]].
    destruct (IHchs _ H) as [new2 [Hf2 [Hd2 [Hc2 Hg2]]]].
    exists (new1 ++ new2). simpl. repeat split.
    + now rewrite Hf2, Hf1, app_assoc.
    + apply Forall2_app; [exact Hd1|]. now rewrite <- Hg1.
    + congruence.
    + congruence.
Qed.

(** X1: discovery appends exactly one record for each function definition
    that is not inside another function definition, in traversal order,
    with the name, position and kind of the node and the outcome of a pass
    over it; it leaves the enclosing-function slot and the configuration as
    they were. *)
Theorem discovery_records_outer_functions (n : node) (v v' : visitor) :
  visitor_visit n v = Ok v' ->
  exists new,
    functions v' = functions v ++ new /\
    Forall2 (describes (visitor_config v)) (outer_functions n) new /\
    current_function v' = current_function v /\
    visitor_config v' = visitor_config v.
Proof. apply visitor_visit_describes. Qed.

Lemma discovery_records_outer_functions_witness :
  exists v',
    visitor_visit (Tree.Module [Tree.outer]) (visitor_init (Some standard)) = Ok v' /\
    exists new,
      functions v' = functions (visitor_init (Some standard)) ++ new /\
      Forall2 (describes standard) (outer_functions (Tree.Module [Tree.outer])) new.
Proof.
  destruct (visitor_visit (Tree.Module [Tree.outer]) (visitor_init (Some standard)))
    as [v'|e] eqn:H; [|vm_compute in H; discriminate H].
  exists v'. split; [reflexivity|].
  destruct (discovery_records_outer_functions _ _ _ H) as [new [Hf [Hd _]]].
  exists new. split; [exact Hf | exact Hd].
Defined.

Lemma _visit_function_is_Ok (n : node) (a : bool) (v : visitor) :
  is_Ok (_visit_function n a v) =
  match assoc "name" (node_fields n) with Some _ => true | None => false end
  && match node_loc n with Some _ => true | None => false end.
Proof.
  unfold _visit_function, getattr, attr_lineno, attr_col_offset.
  destruct (assoc "name" (node_fields n)); [|reflexivity].
  destruct (node_loc n); reflexivity.
Qed.



(** Discovery returns only on a tree whose reached function definitions
    all have a name and a position. *)
Lemma visitor_visit_Ok_located (n : node) :
  forall v v', visitor_visit n v = Ok v' ->
  forallb located_function (outer_functions n) = true.
Proof.
  induction n as [n IH] using node_ind'. intros v v' H.
  rewrite visitor_visit_unfold in H. rewrite outer_functions_unfold.
  assert (Hloc : forall a, is_function_def n = true ->
            _visit_function n a v = Ok v' ->
            forallb located_function [n] = true).
  { intros a Hd Ha. simpl. unfold located_function. rewrite Hd. simpl.
    rewrite andb_true_r.
    apply (f_equal is_Ok) in Ha. now rewrite _visit_function_is_Ok in Ha. }
  unfold is_function_def, isinstance in *.
  case_bool_decide; [cbn [orb]; now apply (Hloc false)|].
  case_bool_decide; [cbn [orb]; now apply (Hloc true)|].
  cbn [orb]. clear Hloc.
  destruct (visit_Constant_value n) as [x0|e0]; cbn [mbind result_bind] in H;
    [|discriminate H].
  revert v H.
  induction IH as [|ch chs Hch _ IHchs]; intros v H; simpl in *; [reflexivity|].
  destruct (visitor_visit ch v) as [v1|] eqn:Hv1; [|discriminate H].
  cbn [mbind result_bind] in H. rewrite forallb_app.
  rewrite (Hch _ _ Hv1). simpl. now apply (IHchs v1).
Qed.



(** ** More on the counting pass *)

Lemma steps_details_off (cfg : config) (l : list node) (c : counter) :
  collect_details c = false ->
  details (fold_left (on_node cfg) l c) = details c.
Proof.
  revert c; induction l as [|n l IH]; intros c Hc; simpl; [reflexivity|].
  rewrite IH by now rewrite on_node_collect.
  rewrite on_node_spec. case_entry n; [|reflexivity].
  destruct (enabled cfg key); [|reflexivity]. simpl. now rewrite Hc.
Qed.

(** X3: a pass that does not collect details reaches the same score as one
    that does, and its list of contributions stays empty. *)
Theorem pass_without_details (cfg : config) (n : node) :
  complexity (visit cfg n (counter_init false)) = complexity (count cfg n) /\
  details (visit cfg n (counter_init false)) = [].
Proof.
  unfold count. rewrite !visit_preorder, !steps_complexity. split; [reflexivity|].
  now rewrite steps_details_off.
Qed.

Lemma contribution_length (cfg : config) (x : node) :
  length (contribution cfg x) = if counted cfg x then 1%nat else 0%nat.
Proof.
  unfold contribution. rewrite counted_spec. case_entry x; [|reflexivity].
  now destruct (enabled cfg key).
Qed.

Lemma flat_map_contribution_length (cfg : config) (l : list node) :
  length (flat_map (contribution cfg) l) = length (List.filter (counted cfg) l).
Proof.
  induction l as [|x l IH]; simpl; [reflexivity|].
  rewrite length_app, contribution_length, IH.
  now destruct (counted cfg x).
Qed.

(** X4: the score of a pass is at least 1 and at most one more than the
    number of nodes of the subtree, and the pass lists exactly score minus
    one contributions. *)
Theorem pass_score_bounds (cfg : config) (n : node) :
  1 <= complexity (count cfg n) <= 1 + Z.of_nat (length (preorder n)) /\
  Z.of_nat (length (details (count cfg n))) = complexity (count cfg n) - 1.
Proof.
  rewrite count_complexity, count_details, flat_map_contribution_length.
  pose proof (List.filter_length_le (counted cfg) (preorder n)).
  lia.
Qed.

(** X5: a pass composes over the tree: the contributions of a node are its
    own followed by those of the passes over its children, in order, and its
    score is 1, plus 1 if the node itself is counted, plus what the children
    add. *)
Theorem pass_composes_over_children (cfg : config) (n : node) :
  details (count cfg n) =
    contribution cfg n ++ flat_map (fun ch => details (count cfg ch)) (child_nodes n) /\
  complexity (count cfg n) =
    1 + (if counted cfg n then 1 else 0) + children_score cfg n.
Proof.
  rewrite count_details, count_complexity, preorder_unfold. unfold children_score.
  simpl. split.
  - f_equal. induction (child_nodes n) as [|ch chs IH]; simpl; [reflexivity|].
    now rewrite flat_map_app, IH, count_details.
  - assert (E : Z.of_nat (length (List.filter (counted cfg)
                                    (flat_map preorder (child_nodes n)))) =
                foldr (fun ch s => complexity (count cfg ch) - 1 + s) 0
                      (child_nodes n)).
    { induction (child_nodes n) as [|ch chs IH]; simpl; [reflexivity|].
      rewrite List.filter_app, length_app, Nat2Z.inj_add, IH, count_complexity.
      lia. }
    rewrite <- E. destruct (counted cfg n); simpl length; lia.
Qed.

Lemma simple_entry_key (n : node) (cl ty desc key : string) :
  simple_entry n = Some (cl, (ty, desc, key)) -> key ∈ simple_keys.
Proof.
  intros H. apply find_some in H as [Hin _].
  apply list_elem_of_In. unfold simple_keys.
  apply (in_map (fun h : string * (string * string * string) => h.2.2)) in Hin.
  exact Hin.
Qed.

Lemma visit_ext_keys (c1 c2 : config) :
  (forall key, key ∈ simple_keys -> enabled c1 key = enabled c2 key) ->
  forall n c, visit c1 n c = visit c2 n c.
Proof.
  intros H n c. rewrite !visit_preorder.
  revert c. induction (preorder n) as [|x l IH]; intros c; simpl; [reflexivity|].
  rewrite IH. f_equal. rewrite !on_node_spec.
  destruct (simple_entry x) as [[cl [[ty desc] key]]|] eqn:E; [|reflexivity].
  now rewrite (H key (simple_entry_key _ _ _ _ _ E)).
Qed.

(** X6: a pass reads seven keys of its configuration and no other: setting
    any other key, [countBoolOp], [countComprehension], [countComprehensionIf]
    and [countMatch] among them, to any value changes nothing, and the strict
    and the standard preset give the same outcome on every tree. *)
Theorem pass_reads_seven_keys (cfg : config) (key : string) (j : json) (n : node) :
  key ∉ ["countIf"; "countWhile"; "countFor"; "countExcept"; "countAssert";
         "countWith"; "countTernary"] ->
  count (<[key := j]> cfg) n = count cfg n /\
  count strict_mccabe n = count standard n.
Proof.
  intros Hkey. split.
  - apply visit_ext_keys. intros k Hk. unfold enabled, config_get.
    rewrite lookup_insert_ne; [reflexivity|]. intros ->. now apply Hkey.
  - apply visit_ext_keys. intros k Hk. vm_compute in Hk.
    repeat (apply elem_of_cons in Hk as [->|Hk]; [vm_compute; reflexivity|]).
    now apply elem_of_nil in Hk.
Qed.

Lemma pass_reads_seven_keys_witness :
  ("countBoolOp" ∉ ["countIf"; "countWhile"; "countFor"; "countExcept";
                    "countAssert"; "countWith"; "countTernary"]) /\
  count (<["countBoolOp" := JBool false]> standard) Tree.g = count standard Tree.g.
Proof.
  assert (H : "countBoolOp" ∉ ["countIf"; "countWhile"; "countFor"; "countExcept";
                               "countAssert"; "countWith"; "countTernary"]).
  { intros H. not_in_list H. }
  split; [exact H|].
  exact (proj1 (pass_reads_seven_keys standard "countBoolOp" (JBool false) Tree.g H)).
Defined.

Lemma counted_comprehensive_standard (x : node) :
  (if counted comprehensive x then 1 else 0) =
  (if counted standard x then 1 else 0)
  + (if isinstance x "Assert" then 1 else 0)
  + (if isinstance x "With" then 1 else 0).
Proof.
  rewrite !counted_spec. unfold simple_entry, isinstance. simpl.
  destruct x as [cls loc fs]. simpl.
  repeat case_bool_decide; subst; try discriminate; vm_compute; reflexivity.
Qed.

(** X7: on every tree the comprehensive preset scores what the standard
    preset scores plus the number of [assert] statements and of (plain)
    [with] statements in the subtree. *)
Theorem comprehensive_adds_assert_and_with (n : node) :
  complexity (count comprehensive n) =
  complexity (count standard n) + class_count "Assert" n + class_count "With" n.
Proof.
  rewrite !count_complexity. unfold class_count.
  induction (preorder n) as [|x l IH]; simpl; [reflexivity|].
  pose proof (counted_comprehensive_standard x) as H.
  destruct (counted comprehensive x), (counted standard x),
    (isinstance x "Assert"), (isinstance x "With"); simpl length; lia.
Qed.

(** ** The named handlers, called directly *)

Lemma for_each_Ok {A S : Type} (body : A -> S -> result S) (f : A -> S -> S)
    (l : list A) :
  Forall (fun x => forall s, body x s = Ok (f x s)) l ->
  forall s, for_each body l s = Ok (fold_left (fun s x => f x s) l s).
Proof.
  induction 1 as [|x l Hx _ IH]; intros s; simpl; [reflexivity|].
  rewrite Hx. simpl. apply IH.
Qed.

Lemma add_all_app (ds1 ds2 : list ComplexityDetail) (c : counter) :
  add_all (ds1 ++ ds2) c = add_all ds2 (add_all ds1 c).
Proof. unfold add_all. apply fold_left_app. Qed.

Lemma add_all_spec (ds : list ComplexityDetail) (c : counter) :
  complexity (add_all ds c) = complexity c + sum_amounts ds /\
  collect_details (add_all ds c) = collect_details c /\
  (collect_details c = true -> details (add_all ds c) = details c ++ ds).
Proof.
  revert c. induction ds as [|d ds IH]; intros c.
  - simpl. unfold sum_amounts; simpl. rewrite app_nil_r.
    split; [lia|]. split; reflexivity.
  - change (add_all (d :: ds) c)
      with (add_all ds (_add_complexity (amount d) (type d) (line d) (description d) c)).
    destruct (IH (_add_complexity (amount d) (type d) (line d) (description d) c))
      as [Hc [Hf Hd]].
    rewrite Hc, Hf. unfold sum_amounts; simpl. split; [lia|]. split; [reflexivity|].
    intros Hcol. rewrite Hd by exact Hcol. simpl. rewrite Hcol, <- app_assoc.
    now destruct d.
Qed.

Lemma sum_amounts_repeat (d : ComplexityDetail) (k : nat) :
  sum_amounts (repeat d k) = amount d * Z.of_nat k.
Proof.
  induction k as [|k IH]; [unfold sum_amounts; simpl; lia|].
  change (sum_amounts (repeat d (S k))) with (amount d + sum_amounts (repeat d k)).
  rewrite IH. lia.
Qed.

(** X8: [visit_Match], called on a [match] statement as the parser builds
    it, adds one contribution of amount 1, at the line of the statement, for
    every case whose pattern is not the bare [_], guarded or not, and then
    goes on into the children; with [countMatch] off it adds nothing and
    reads no attribute. *)
Theorem match_handler_counts_cases (cfg : config) (n : node) (c : counter)
    (cases : list value) (l : location) :
  getattr (VAst n) "cases" = Ok (VList cases) ->
  forallb parsed_case cases = true ->
  node_loc n = Some l ->
  let k := length (List.filter (fun case => negb (bare_wildcard case)) cases) in
  let ds := repeat (Detail "match_case" (lineno l) 1 "match case") k in
  (enabled cfg "countMatch" = true ->
     visit_Match cfg n c = Ok (generic_visit cfg n (add_all ds c)) /\
     complexity (add_all ds c) = complexity c + Z.of_nat k) /\
  (enabled cfg "countMatch" = false ->
     visit_Match cfg n c = Ok (generic_visit cfg n c)).
Proof.
  intros Hcases Hwf Hloc k ds.
  assert (Hln : attr_lineno n = Ok (lineno l))
    by (unfold attr_lineno; now rewrite Hloc).
  split; intros He; unfold visit_Match; rewrite He; [|reflexivity].
  rewrite Hcases. cbn [mbind result_bind py_iter].
  set (d := Detail "match_case" (lineno l) 1 "match case").
  set (f := fun (case : value) (c : counter) =>
              if bare_wildcard case then c else add_all [d] c).
  rewrite (for_each_Ok _ f).
  - cbn [mbind result_bind].
    assert (E : forall c0, fold_left (fun s x => f x s) cases c0 =
                           add_all (repeat d (length (List.filter
                             (fun case => negb (bare_wildcard case)) cases))) c0).
    { clear. induction cases as [|x xs IH]; intros c0; [reflexivity|].
      cbn [fold_left List.filter]. rewrite IH. unfold f.
      destruct (bare_wildcard x); reflexivity. }
    rewrite E. split; [reflexivity|].
    destruct (add_all_spec ds c) as [-> _]. unfold ds.
    rewrite sum_amounts_repeat. simpl amount. lia.
  - apply Forall_forall. intros case Hin s.
    apply list_elem_of_In in Hin.
    rewrite forallb_forall in Hwf. specialize (Hwf case Hin).
    unfold parsed_case in Hwf. unfold f, bare_wildcard.
    destruct (getattr case "pattern") as [pattern|]; [|discriminate].
    cbn [mbind result_bind].
    destruct (isinstance_value pattern "MatchAs"); cbn [negb andb orb] in *.
    + destruct (getattr pattern "name") as [name|]; [|discriminate].
      cbn [mbind result_bind]. destruct (is_None name); cbn [negb];
        [reflexivity|]. now rewrite Hln.
    + now rewrite Hln.
Qed.

Lemma match_handler_counts_cases_witness :
  complexity <$> visit_Match standard Tree.m_match (counter_init true) = Ok 2.
Proof.
  destruct (match_handler_counts_cases standard Tree.m_match (counter_init true)
              _ _ eq_refl eq_refl eq_refl) as [H _].
  destruct (H eq_refl) as [-> _]. vm_compute. reflexivity.
Defined.

Lemma add_all_flat_map {A : Type} (g : A -> list ComplexityDetail) (l : list A)
    (c : counter) :
  fold_left (fun s x => add_all (g x) s) l c = add_all (flat_map g l) c.
Proof.
  revert c. induction l as [|x l IH]; intros c; simpl; [reflexivity|].
  now rewrite IH, add_all_app.
Qed.

Lemma sum_amounts_ones (ds : list ComplexityDetail) :
  Forall (fun d => amount d = 1) ds -> sum_amounts ds = Z.of_nat (length ds).
Proof.
  induction 1 as [|d ds Hd _ IH]; [reflexivity|].
  change (sum_amounts (d :: ds)) with (amount d + sum_amounts ds).
  rewrite Hd, IH. simpl length. lia.
Qed.

(** X9: [_handle_comprehension], called on a comprehension as the parser
    builds it, adds for each [for] clause in turn one contribution and, when
    [countComprehensionIf] is on, one more for each of its filters, all of
    amount 1 and at the line of the comprehension; with [countComprehension]
    off it adds nothing, whatever [countComprehensionIf] says. *)
Theorem comprehension_handler_counts_clauses (cfg : config) (n : node)
    (comp_type desc : string) (c : counter) (generators : list value)
    (l : location) :
  getattr (VAst n) "generators" = Ok (VList generators) ->
  forallb (fun comp => is_Ok (getattr comp "ifs" ≫= py_iter)) generators = true ->
  node_loc n = Some l ->
  let ds := comprehension_details comp_type desc (lineno l)
              (enabled cfg "countComprehensionIf") generators in
  (enabled cfg "countComprehension" = true ->
     _handle_comprehension cfg n comp_type desc c = Ok (add_all ds c) /\
     complexity (add_all ds c) = complexity c + Z.of_nat (length ds)) /\
  (enabled cfg "countComprehension" = false ->
     _handle_comprehension cfg n comp_type desc c = Ok c).
Proof.
  intros Hgen Hwf Hloc ds.
  assert (Hln : attr_lineno n = Ok (lineno l))
    by (unfold attr_lineno; now rewrite Hloc).
  split; intros He; unfold _handle_comprehension; rewrite He; cbn [negb];
    [|reflexivity].
  rewrite Hgen. cbn [mbind result_bind py_iter]. split.
  - unfold ds, comprehension_details. rewrite <- add_all_flat_map.
    apply for_each_Ok. apply Forall_forall. intros comp Hin s.
    apply list_elem_of_In in Hin.
    rewrite forallb_forall in Hwf. specialize (Hwf comp Hin).
    rewrite Hln. cbn [mbind result_bind].
    destruct (enabled cfg "countComprehensionIf"); [|reflexivity].
    unfold clause_ifs.
    destruct (getattr comp "ifs" ≫= py_iter) as [ifs|]; [|discriminate].
    cbn [mbind result_bind].
    rewrite (for_each_Ok _ (fun _ s =>
               add_all [Detail "comp_if" (lineno l) 1 "comprehension if"] s)).
    + rewrite (add_all_flat_map
                 (fun _ => [Detail "comp_if" (lineno l) 1 "comprehension if"])).
      f_equal.
    + apply Forall_forall. intros x _ s'. reflexivity.
  - destruct (add_all_spec ds c) as [-> _]. f_equal.
    apply sum_amounts_ones. unfold ds, comprehension_details.
    apply Forall_forall. intros d Hd.
    apply list_elem_of_In, in_flat_map in Hd as [comp [_ Hd]].
    destruct Hd as [<-|Hd]; [reflexivity|].
    destruct (enabled cfg "countComprehensionIf"); [|destruct Hd].
    apply in_map_iff in Hd as [x [<- _]]. reflexivity.
Qed.

Lemma comprehension_handler_counts_clauses_witness :
  details <$> _handle_comprehension standard Tree2.squares "list_comp"
                "list comprehension" (counter_init true) =
  Ok [ Detail "list_comp" 2 1 "list comprehension";
       Detail "comp_if" 2 1 "comprehension if";
       Detail "comp_if" 2 1 "comprehension if";
       Detail "list_comp" 2 1 "list comprehension" ].
Proof.
  destruct (comprehension_handler_counts_clauses standard Tree2.squares
              "list_comp" "list comprehension" (counter_init true)
              _ _ eq_refl eq_refl eq_refl) as [H _].
  destruct (H eq_refl) as [-> _]. vm_compute. reflexivity.
Defined.

(** ** More on configuration resolution *)

Lemma update_object_lookup (cfg : config) (members : list (string * json))
    (k : string) :
  fold_left (fun c kv => <[kv.1 := kv.2]> c) members cfg !! k =
  match object_get members k with
  | Some v => Some v
  | None => cfg !! k
  end.
Proof.
  unfold object_get. induction members as [|[k' v'] ms IH] using rev_ind;
    [reflexivity|].
  rewrite fold_left_app, rev_unit. simpl.
  case_bool_decide as E.
  - subst k'. apply lookup_insert_eq.
  - rewrite lookup_insert_ne by exact E. exact IH.
Qed.

Lemma find_project_config_agree (fs fs' : list string -> config_file)
    (dir : list string) :
  (forall d, d <> [] -> d `prefix_of` dir -> fs d = fs' d) ->
  find_project_config fs dir = find_project_config fs' dir.
Proof.
  unfold find_project_config. intros H.
  assert (G : forall up, rev up `prefix_of` dir -> walk_up fs up = walk_up fs' up).
  { induction up as [|x up IH]; intros Hp; [reflexivity|].
    cbn [walk_up]. rewrite <- (H (rev (x :: up)));
      [|simpl; intros E; symmetry in E; now apply app_cons_not_nil in E|exact Hp].
    destruct (fs (rev (x :: up))); try reflexivity.
    apply IH. simpl in Hp. destruct Hp as [k ->].
    exists ([x] ++ k). now rewrite app_assoc. }
  apply G. now rewrite rev_involutive.
Qed.

Lemma walk_up_warnings (fs : list string -> config_file) (up : list string) :
  (length (walk_up fs up).2 <= 1)%nat.
Proof.
  induction up as [|x up IH]; simpl; [lia|].
  destruct (fs (rev up ++ [x])); simpl; [exact IH | lia | lia].
Qed.

(** X10: the upward search looks only at the file's directory and the
    directories above it, and never at [/] itself: file systems that agree
    on those directories give the same answer, whatever lies in [/] or
    elsewhere.  For a file directly in [/] nothing is looked at.  The root
    [//] of a path that begins with two slashes is looked at, last.  One
    search prints at most one warning. *)
Theorem search_reads_ancestors_below_root (fs fs' : list string -> config_file)
    (dir : list string) :
  (forall d, d <> [] -> d `prefix_of` dir -> fs d = fs' d) ->
  find_project_config fs dir = find_project_config fs' dir /\
  (length (find_project_config fs dir).2 <= 1)%nat /\
  find_project_config fs [] = (JNull, []) /\
  find_project_config fs [""] =
    match fs [""] with
    | Loaded j => (j, [])
    | Unloadable e => (JNull, [warning [""] e])
    | Missing => (JNull, [])
    end.
Proof.
  intros H. split; [now apply find_project_config_agree|].
  split; [apply walk_up_warnings|]. split; [reflexivity|].
  unfold find_project_config. simpl. now destruct (fs [""]).
Qed.

Lemma search_reads_ancestors_below_root_witness :
  find_project_config project_fs ["home"; "proj"; "src"] =
  find_project_config
    (fun d => if bool_decide (d = []) then Unloadable "root" else project_fs d)
    ["home"; "proj"; "src"].
Proof.
  apply (search_reads_ancestors_below_root project_fs
           (fun d => if bool_decide (d = []) then Unloadable "root" else project_fs d)).
  intros d Hd _. now rewrite bool_decide_eq_false_2.
Defined.

(** X11: the three layers of [load_config], for an override file that holds
    a JSON object: a key has the value the environment's preset gives it,
    else the value of the object's last member with that key, else the
    value of the base preset; nothing is printed. *)
Theorem load_config_layers (fs : list string -> config_file)
    (getenv : option string) (dir : list string) (preset : option string)
    (found : list string) (members : list (string * json)) :
  nearest_override fs dir found ->
  fs found = Loaded (JObj members) ->
  exists cfg,
    load_config fs getenv dir preset = (Ok cfg, []) /\
    forall k, cfg !! k =
      match names_preset getenv ≫= (fun p => p !! k) with
      | Some v => Some v
      | None =>
          match object_get members k with
          | Some v => Some v
          | None => base_config preset !! k
          end
      end.
Proof.
  intros Hnear Hfs. unfold load_config.
  rewrite (find_project_config_nearest fs dir found Hnear), Hfs.
  assert (E : forall c, (if truthy (JObj members) then update c (JObj members)
                         else Ok c) =
                        Ok (fold_left (fun c kv => <[kv.1 := kv.2]> c) members c)).
  { intros c. destruct members; reflexivity. }
  rewrite E. cbn [mbind result_bind]. eexists. split; [reflexivity|].
  intros k. destruct (names_preset getenv) as [p|]; cbn [mbind option_bind].
  - rewrite lookup_union. destruct (p !! k) as [v|] eqn:Ep.
    + now rewrite union_Some_l.
    + rewrite (left_id None _). apply update_object_lookup.
  - apply update_object_lookup.
Qed.

Lemma load_config_layers_witness :
  exists cfg,
    load_config project_fs None ["home"; "proj"; "src"] (Some "comprehensive")
      = (Ok cfg, []) /\
    cfg !! "countIf" = Some (JBool false) /\
    cfg !! "countWith" = Some (JBool true) /\
    cfg !! "team" = Some (JStr "core").
Proof.
  assert (Hnear : nearest_override project_fs ["home"; "proj"; "src"] ["home"; "proj"]).
  { split; [discriminate|]. split; [vm_compute; discriminate|].
    exists ["src"]. split; [reflexivity|]. intros mid rest E Hmid.
    destruct mid as [|x mid]; [contradiction|]. injection E as <- E.
    destruct mid; [|discriminate]. vm_compute. reflexivity. }
  destruct (load_config_layers project_fs None ["home"; "proj"; "src"]
              (Some "comprehensive") ["home"; "proj"] _ Hnear eq_refl)
    as [cfg [Hload Hk]].
  exists cfg. split; [exact Hload|].
  split; [|split]; rewrite Hk; vm_compute; reflexivity.
Defined.

Lemma preset_defines_keys (name : string) (p : config) (k : string) :
  PRESETS !! name = Some p -> k ∈ preset_keys -> is_Some (p !! k).
Proof.
  intros Hp Hk. apply elem_of_list_to_map_2 in Hp.
  assert (Hp' : p = strict_mccabe \/ p = standard \/ p = comprehensive).
  { repeat (apply elem_of_cons in Hp as [Hp|Hp]; [injection Hp as _ ->; tauto|]).
    now apply elem_of_nil in Hp. }
  vm_compute in Hk.
  repeat (apply elem_of_cons in Hk as [->|Hk];
          [destruct Hp' as [->|[->| ->]]; vm_compute; eexists; reflexivity|]).
  now apply elem_of_nil in Hk.
Qed.

Lemma names_preset_in_table (o : option string) (p : config) :
  names_preset o = Some p -> exists name, PRESETS !! name = Some p.
Proof.
  destruct o as [name|]; [|discriminate]. simpl.
  case_bool_decide; [discriminate|]. intros Hp. now exists name.
Qed.

Lemma simple_keys_preset_keys (k : string) : k ∈ simple_keys -> k ∈ preset_keys.
Proof.
  intros Hk. vm_compute in Hk.
  repeat (apply elem_of_cons in Hk as [->|Hk]; [in_list|]).
  now apply elem_of_nil in Hk.
Qed.

Lemma load_config_env (fs : list string -> config_file) (getenv : option string)
    (dir : list string) (preset : option string) (p cfg : config) :
  names_preset getenv = Some p ->
  (load_config fs getenv dir preset).1 = Ok cfg ->
  exists c, cfg = p ∪ c.
Proof.
  intros Hp. unfold load_config. destruct (find_project_config fs dir) as [j err].
  cbn [fst]. rewrite Hp.
  destruct (if truthy j then update (base_config preset) j else Ok (base_config preset))
    as [c|]; [|discriminate].
  cbn [mbind result_bind]. intros [= <-]. now exists c.
Qed.

(** X12: when the environment names a preset, every pass under the resolved
    configuration is the pass under that preset, and the name reported is the
    preset's, whatever the project file and the preset argument say. *)
Theorem environment_preset_decides_pass (fs : list string -> config_file)
    (getenv : option string) (dir : list string) (preset : option string)
    (p cfg : config) (n : node) :
  names_preset getenv = Some p ->
  (load_config fs getenv dir preset).1 = Ok cfg ->
  count cfg n = count p n /\
  config_get cfg "name" (JStr "custom") = config_get p "name" (JStr "custom").
Proof.
  intros Hp Hload.
  destruct (load_config_env _ _ _ _ _ _ Hp Hload) as [c ->].
  destruct (names_preset_in_table _ _ Hp) as [name Hname].
  assert (Hk : forall k, k ∈ preset_keys -> (p ∪ c) !! k = p !! k).
  { intros k Hin. destruct (preset_defines_keys name p k Hname Hin) as [v Hv].
    rewrite Hv. now apply lookup_union_Some_l. }
  split.
  - apply visit_ext_keys. intros k Hin. unfold enabled, config_get.
    now rewrite Hk by now apply simple_keys_preset_keys.
  - unfold config_get. rewrite Hk; [reflexivity | in_list].
Qed.

Lemma environment_preset_decides_pass_witness :
  exists cfg,
    (load_config project_fs (Some "comprehensive") ["home"; "proj"; "src"]
       (Some "strict_mccabe")).1 = Ok cfg /\
    count cfg Tree.f = count comprehensive Tree.f.
Proof.
  destruct (load_config project_fs (Some "comprehensive") ["home"; "proj"; "src"]
              (Some "strict_mccabe")).1 as [cfg|e] eqn:H;
    [|vm_compute in H; discriminate H].
  exists cfg. split; [reflexivity|].
  exact (proj1 (environment_preset_decides_pass project_fs (Some "comprehensive")
                  ["home"; "proj"; "src"] (Some "strict_mccabe")
                  comprehensive cfg Tree.f eq_refl H)).
Defined.

Lemma set_item_keeps (c c' : config) (k v : json) (key : string) :
  set_item c k v = Ok c' -> is_Some (c !! key) -> is_Some (c' !! key).
Proof.
  destruct k; simpl; try discriminate; intros [= <-] H; try exact H.
  rewrite lookup_insert. case_decide; [now eexists | exact H].
Qed.

Lemma update_keeps (c c' : config) (j : json) (key : string) :
  update c j = Ok c' -> is_Some (c !! key) -> is_Some (c' !! key).
Proof.
  destruct j as [| | |s|items|members]; simpl; try discriminate.
  - destruct s; [|discriminate]. now intros [= <-].
  - revert c. induction items as [|item items IH]; intros c; simpl;
      [now intros [= <-]|].
    destruct (as_pair item) as [[k v]|]; cbn [mbind result_bind fst snd];
      [|discriminate].
    destruct (set_item c k v) as [c1|] eqn:E; cbn [mbind result_bind];
      [|discriminate].
    intros H Hs. apply (IH _ H).
    now apply (set_item_keeps _ _ _ _ _ E).
  - intros [= <-] H. rewrite update_object_lookup.
    now destruct (object_get members key).
Qed.

(** X13: a configuration [load_config] returns defines every key of the
    presets, the eleven flags and the two texts, whatever the project file
    added or replaced. *)
Theorem load_config_defines_every_flag (fs : list string -> config_file)
    (getenv : option string) (dir : list string) (preset : option string)
    (cfg : config) (key : string) :
  (load_config fs getenv dir preset).1 = Ok cfg ->
  key ∈ preset_keys ->
  is_Some (cfg !! key).
Proof.
  unfold load_config. destruct (find_project_config fs dir) as [j err].
  cbn [fst]. intros H Hkey.
  assert (Hbase : is_Some (base_config preset !! key)).
  { unfold base_config. destruct (names_preset preset) as [p|] eqn:E; simpl.
    - destruct (names_preset_in_table _ _ E) as [name Hname].
      now apply (preset_defines_keys name).
    - now apply (preset_defines_keys "standard" standard). }
  assert (Hc : forall c, (if truthy j then update (base_config preset) j
                          else Ok (base_config preset)) = Ok c ->
                         is_Some (c !! key)).
  { intros c. destruct (truthy j); [|now intros [= <-]].
    intros Hu. now apply (update_keeps _ _ _ _ Hu). }
  destruct (if truthy j then update (base_config preset) j else Ok (base_config preset))
    as [c|]; [|discriminate].
  cbn [mbind result_bind] in H. injection H as <-.
  specialize (Hc c eq_refl). destruct Hc as [v Hv].
  destruct (names_preset getenv) as [p|]; [|now exists v].
  rewrite lookup_union. destruct (p !! key); rewrite Hv; now eexists.
Qed.

Lemma load_config_defines_every_flag_witness :
  exists cfg,
    (load_config project_fs None ["home"; "proj"; "src"] None).1 = Ok cfg /\
    is_Some (cfg !! "countMatch").
Proof.
  destruct (load_config project_fs None ["home"; "proj"; "src"] None).1
    as [cfg|e] eqn:H; [|vm_compute in H; discriminate H].
  exists cfg. split; [reflexivity|].
  apply (load_config_defines_every_flag project_fs None ["home"; "proj"; "src"]
           None cfg "countMatch" H).
  in_list.
Defined.

(** X14: what an override file holds decides whether resolution returns: a
    false value ([null], [false], [0], the empty string, list or object) is
    ignored; a true boolean or number raises a type error and a non-empty
    string a value error, and then [main] ends with no result. *)
Theorem override_content_may_abort (fs : list string -> config_file)
    (getenv : option string) (file_path : string) (dir : list string)
    (source : result node) (preset : option string)
    (found : list string) (j : json) :
  nearest_override fs dir found ->
  fs found = Loaded j ->
  (truthy j = false ->
     load_config fs getenv dir preset = (Ok (preset_only getenv preset), [])) /\
  (truthy j = true ->
     match j with
     | JBool _ | JNum _ =>
         load_config fs getenv dir preset = (Raise TypeError, []) /\
         main fs getenv file_path dir source preset = (None, [])
     | JStr _ =>
         load_config fs getenv dir preset = (Raise ValueError, []) /\
         main fs getenv file_path dir source preset = (None, [])
     | _ => True
     end).
Proof.
  intros Hnear Hfs.
  assert (Hfind : find_project_config fs dir = (j, [])).
  { rewrite (find_project_config_nearest fs dir found Hnear). now rewrite Hfs. }
  split; intros Ht.
  - unfold load_config. rewrite Hfind, Ht. reflexivity.
  - assert (Hmain : forall e, load_config fs getenv dir preset = (Raise e, []) ->
                      main fs getenv file_path dir source preset = (None, [])).
    { intros e He. unfold main. now rewrite He. }
    destruct j as [|b|z|s|items|members]; try exact I.
    + assert (E : load_config fs getenv dir preset = (Raise TypeError, []))
        by (unfold load_config; rewrite Hfind, Ht; reflexivity).
      split; [exact E | exact (Hmain _ E)].
    + assert (E : load_config fs getenv dir preset = (Raise TypeError, []))
        by (unfold load_config; rewrite Hfind, Ht; reflexivity).
      split; [exact E | exact (Hmain _ E)].
    + assert (E : load_config fs getenv dir preset = (Raise ValueError, [])).
      { unfold load_config. rewrite Hfind, Ht. destruct s; [discriminate Ht|].
        reflexivity. }
      split; [exact E | exact (Hmain _ E)].
Qed.

Lemma override_content_may_abort_witness :
  main number_fs None "src/f.py" ["home"; "proj"; "src"]
       (Ok (Tree.Module [Tree.f])) None = (None, []).
Proof.
  assert (Hnear : nearest_override number_fs ["home"; "proj"; "src"] ["home"; "proj"]).
  { split; [discriminate|]. split; [vm_compute; discriminate|].
    exists ["src"]. split; [reflexivity|]. intros mid rest E Hmid.
    destruct mid as [|x mid]; [contradiction|]. injection E as <- E.
    destruct mid; [|discriminate]. vm_compute. reflexivity. }
  destruct (override_content_may_abort number_fs None "src/f.py"
              ["home"; "proj"; "src"] (Ok (Tree.Module [Tree.f])) None
              ["home"; "proj"] (JNum 1) Hnear eq_refl) as [_ H].
  exact (proj2 (H eq_refl)).
Defined.


(** ** The result of an analysis *)

Lemma failure_shape (file_path : string) (e : exn) :
  let r := failure file_path e in
  success r = false /\ result_functions r = [] /\ total_functions r = None /\
  config_used r = None /\ is_Some (error r) /\
  (error_type r = Some "syntax" \/ error_type r = Some "file_not_found" \/
   error_type r = Some "unknown") /\
  (is_Some (error_line r) <-> error_type r = Some "syntax").
Proof.
  destruct e; simpl; repeat split; eauto; try discriminate;
    intros [x Hx]; discriminate Hx.
Qed.

(** X15: a result of [analyze_file] has one of two shapes.  On success it
    has no error entries, names the configuration, and its count is the
    length of its list of functions.  On failure the list is empty, count
    and configuration name are missing, the error type is one of syntax,
    file_not_found and unknown, and a line is given exactly for syntax. *)
Theorem analysis_result_shape (fs : list string -> config_file)
    (getenv : option string) (file_path : string) (dir : list string)
    (source : result node) (cfg : option config) :
  let r := (analyze_file fs getenv file_path dir source cfg).1 in
  (success r = true /\ error r = None /\ error_type r = None /\
   error_line r = None /\ is_Some (config_used r) /\
   total_functions r = Some (Z.of_nat (length (result_functions r)))) \/
  (success r = false /\ result_functions r = [] /\ total_functions r = None /\
   config_used r = None /\ is_Some (error r) /\
   (error_type r = Some "syntax" \/ error_type r = Some "file_not_found" \/
    error_type r = Some "unknown") /\
   (is_Some (error_line r) <-> error_type r = Some "syntax")).
Proof.
  unfold analyze_file. destruct source as [tree|e];
    [|right; apply failure_shape].
  destruct (match cfg with
            | Some c => (Ok c, [])
            | None => load_config fs getenv dir None
            end) as [[config|e] err]; cbn [mbind result_bind fst];
    [|right; apply failure_shape].
  destruct (visitor_visit tree (visitor_init (Some config))) as [v|e];
    cbn [mbind result_bind]; [|right; apply failure_shape].
  left. simpl. repeat split; eauto.
Qed.

(** X16: an empty configuration passed to [analyze_file] is replaced by the
    standard preset for discovery and counting, so the functions reported are
    those of the standard preset, while the configuration is reported as
    custom. *)
Theorem empty_configuration_counts_as_standard (fs : list string -> config_file)
    (getenv : option string) (file_path : string) (dir : list string)
    (source : result node) :
  let r0 := (analyze_file fs getenv file_path dir source (Some ∅)).1 in
  let r1 := (analyze_file fs getenv file_path dir source (Some standard)).1 in
  result_functions r0 = result_functions r1 /\
  success r0 = success r1 /\
  error r0 = error r1 /\
  (success r0 = true ->
   config_used r0 = Some (JStr "custom") /\
   config_used r1 = Some (JStr "Standard (Industry Common)")).
Proof.
  unfold analyze_file. destruct source as [tree|e];
    [|repeat split; destruct e; discriminate].
  cbn [mbind result_bind fst].
  change (visitor_init (Some ∅)) with (visitor_init (Some standard)).
  destruct (visitor_visit tree (visitor_init (Some standard))) as [v|e];
    cbn [mbind result_bind].
  - repeat split.
  - repeat split; destruct e; discriminate.
Qed.



(** ** The command line *)

Lemma split_no_separator (sep : ascii) (s : string) :
  has_char sep s = false -> split sep s = (s, []).
Proof.
  induction s as [|a s IH]; simpl; [reflexivity|].
  intros H. apply orb_false_elim in H as [Ha Hs].
  now rewrite (IH Hs), Ha.
Qed.

Lemma split_first_piece (sep : ascii) (s1 s2 : string) :
  has_char sep s1 = false -> (split sep (s1 +:+ String sep s2)).1 = s1.
Proof.
  induction s1 as [|a s1 IH]; simpl.
  - intros _. destruct (split sep s2). now rewrite Ascii.eqb_refl.
  - intros H. apply orb_false_elim in H as [Ha Hs].
    specialize (IH Hs). destruct (split sep (s1 +:+ String sep s2)).
    rewrite Ha. simpl in *. now rewrite IH.
Qed.

Lemma preset_argument_step (v : string) (preset : option string) :
  (if String.prefix "--preset=" ("--preset=" +:+ v)
   then Some (default "" (head (split "=" ("--preset=" +:+ v)).2))
   else preset) = Some (split "=" v).1.
Proof.
  cbv [String.append]. simpl. destruct (split "=" v) as [x rest].
  replace (String.prefix "" v) with true by now destruct v.
  reflexivity.
Qed.

Lemma preset_argument_others (l : list string) (preset : option string) :
  Forall (fun a => String.prefix "--preset=" a = false) l ->
  fold_left (fun preset arg =>
               if String.prefix "--preset=" arg
               then Some (default "" (head (split "=" arg).2))
               else preset) l preset = preset.
Proof.
  intros H. revert preset. induction H as [|a l Ha _ IH]; intros preset; simpl;
    [reflexivity|].
  rewrite Ha. apply IH.
Qed.

(** X18: of several [--preset=] arguments the last one decides, wherever it
    stands, and its value is the text up to the next [=]: what follows a
    second [=] is dropped.  With no such argument there is no preset. *)
Theorem preset_argument_last_wins (before after : list string) (v rest : string) :
  Forall (fun a => String.prefix "--preset=" a = false) after ->
  has_char "=" v = false ->
  preset_argument (before ++ ("--preset=" +:+ v) :: after) = Some v /\
  preset_argument (before ++ ("--preset=" +:+ v +:+ "=" +:+ rest) :: after) = Some v /\
  preset_argument after = None.
Proof.
  intros Hafter Hv. unfold preset_argument.
  rewrite !fold_left_app. cbn [fold_left].
  rewrite !preset_argument_step, !preset_argument_others by exact Hafter.
  rewrite (split_no_separator _ _ Hv).
  change (v +:+ "=" +:+ rest) with (v +:+ String "=" rest).
  now rewrite (split_first_piece _ _ _ Hv).
Qed.

Lemma preset_argument_last_wins_witness :
  preset_argument ["analyzer.py"; "--preset=strict_mccabe"; "f.py";
                   "--preset=comprehensive=x"; "--details"]
  = Some "comprehensive".
Proof.
  assert (H1 : Forall (fun a => String.prefix "--preset=" a = false) ["--details"])
    by (repeat constructor).
  assert (H2 : has_char "=" "comprehensive" = false) by reflexivity.
  exact (proj1 (proj2 (preset_argument_last_wins
           ["analyzer.py"; "--preset=strict_mccabe"; "f.py"] ["--details"]
           "comprehensive" "x" H1 H2))).
Defined.

(** X19: the exit status of [main].  With no file argument it prints the
    usage error and exits with 1, looking at nothing else.  With one, a file
    that cannot be read or parsed still gives exit status 0 and its failure
    as JSON, also under [--details], whenever the configuration resolves;
    the detailed report is printed only for a successful analysis. *)
Theorem cli_exit_status (fs : list string -> config_file)
    (getenv : option string) (dir_of : string -> list string)
    (read : string -> result node) (argv : list string) :
  ((length argv < 2)%nat ->
     cli_main fs getenv dir_of read argv =
     {| exit_code := 1; stdout := Some UsageError; stderr := [] |}) /\
  (forall prog file_path rest e,
     argv = prog :: file_path :: rest ->
     read file_path = Raise e ->
     is_Ok (load_config fs getenv (dir_of file_path) (preset_argument argv)).1 = true ->
     exit_code (cli_main fs getenv dir_of read argv) = 0 /\
     stdout (cli_main fs getenv dir_of read argv) =
       Some (ResultJson (failure file_path e))) /\
  (forall r file_path,
     stdout (cli_main fs getenv dir_of read argv) = Some (DetailedOutput r file_path) ->
     success r = true /\ show_details argv = true /\
     exit_code (cli_main fs getenv dir_of read argv) = 0).
Proof.
  split; [|split].
  - intros Hlen. destruct argv as [|a [|b argv]]; simpl in Hlen;
      [reflexivity | reflexivity | lia].
  - intros prog file_path rest e -> Hread Hok. unfold cli_main, main.
    destruct (load_config fs getenv (dir_of file_path)
                (preset_argument (prog :: file_path :: rest))) as [[cfg|e'] err];
      [|discriminate].
    unfold analyze_file. rewrite Hread. cbn [exit_code stdout].
    split; [reflexivity|].
    assert (Hs : success (failure file_path e) = false) by now destruct e.
    now rewrite Hs, andb_false_r.
  - intros r file_path. unfold cli_main.
    destruct argv as [|a [|b argv]]; [discriminate | discriminate|].
    destruct (main _ _ _ _ _ _) as [[r'|] err]; cbn [stdout exit_code];
      [|discriminate].
    destruct (show_details (a :: b :: argv)); [|discriminate].
    destruct (success r') eqn:Hs; [|discriminate].
    cbn [andb]. intros [= <- <-]. now rewrite Hs.
Qed.

(** ** The comparison script *)

Lemma estimate_fold (ds : list ComplexityDetail) (z : Z) :
  fold_left (fun strict detail =>
               if bool_decide (type detail ∈
                    ["if"; "while"; "for"; "except"; "ternary"; "match_case"])
               then strict + amount detail
               else strict) ds z =
  z + sum_amounts (List.filter (fun d => bool_decide (type d ∈
        ["if"; "while"; "for"; "except"; "ternary"; "match_case"])) ds).
Proof.
  revert z. induction ds as [|d ds IH]; intros z; simpl;
    [unfold sum_amounts; simpl; lia|].
  rewrite IH. destruct (bool_decide _); [|reflexivity].
  change (sum_amounts (d :: ?l)) with (amount d + sum_amounts l). 
  unfold sum_amounts; simpl. lia.
Qed.

Lemma basic_contribution (cfg : config) (x : node) :
  (forall k, k ∈ ["countIf"; "countWhile"; "countFor"; "countExcept"; "countTernary"] ->
             enabled cfg k = true) ->
  sum_amounts (List.filter (fun d => bool_decide (type d ∈
     ["if"; "while"; "for"; "except"; "ternary"; "match_case"])) (contribution cfg x)) =
  (if counted strict_mccabe x then 1 else 0) /\
  sum_amounts (contribution cfg x) = (if counted cfg x then 1 else 0).
Proof.
  intros H. rewrite !counted_spec. unfold contribution, simple_entry, isinstance.
  destruct x as [cls loc fs]. simpl.
  repeat (case_bool_decide;
          [first [rewrite H by in_list; split; vm_compute; reflexivity
                 |match goal with |- context [enabled cfg ?k] =>
                    destruct (enabled cfg k) end; split; vm_compute; reflexivity]|]).
  split; reflexivity.
Qed.

Lemma strict_counted_le (cfg : config) (x : node) :
  (forall k, k ∈ ["countIf"; "countWhile"; "countFor"; "countExcept"; "countTernary"] ->
             enabled cfg k = true) ->
  counted strict_mccabe x = true -> counted cfg x = true.
Proof.
  intros H. rewrite !counted_spec. unfold simple_entry, isinstance.
  destruct x as [cls loc fs]. simpl.
  repeat (case_bool_decide;
          [first [rewrite H by in_list; reflexivity
                 |vm_compute; intros Hx; discriminate Hx]|]).
  intros Hx; discriminate Hx.
Qed.

(** X20: for a record the analyzer produced under a configuration that has
    the five basic flags on, [estimate_strict_complexity] is exactly the score
    of a pass under the strict preset, and never more than the recorded
    score. *)
Theorem strict_estimate_is_strict_score (cfg : config) (n : node)
    (info : function_info) :
  record_of cfg n info ->
  (forall k, k ∈ ["countIf"; "countWhile"; "countFor"; "countExcept"; "countTernary"] ->
             enabled cfg k = true) ->
  estimate_strict_complexity info = complexity (count strict_mccabe n) /\
  estimate_strict_complexity info <= fn_complexity info.
Proof.
  intros [Hc Hd] H.
  assert (E : estimate_strict_complexity info =
              1 + sum_amounts (List.filter (fun d => bool_decide (type d ∈
                ["if"; "while"; "for"; "except"; "ternary"; "match_case"]))
                (fn_details info))).
  { unfold estimate_strict_complexity.
    destruct (fn_details info) as [|d ds] eqn:Ed.
    - rewrite Hc. pose proof (count_consistent cfg n) as Hcons.
      unfold consistent in Hcons. rewrite Hcons, <- Hd. reflexivity.
    - apply estimate_fold. }
  rewrite E, Hc, Hd, count_details, !count_complexity.
  assert (G : forall l,
    sum_amounts (List.filter (fun d => bool_decide (type d ∈
       ["if"; "while"; "for"; "except"; "ternary"; "match_case"]))
       (flat_map (contribution cfg) l)) =
    Z.of_nat (length (List.filter (counted strict_mccabe) l)) /\
    Z.of_nat (length (List.filter (counted strict_mccabe) l)) <=
    Z.of_nat (length (List.filter (counted cfg) l))).
  { induction l as [|x l [IH1 IH2]]; [split; [reflexivity | simpl; lia]|].
    destruct (basic_contribution cfg x H) as [Hb Hs].
    cbn [flat_map]. rewrite List.filter_app, sum_amounts_app, IH1, Hb.
    cbn [List.filter].
    pose proof (strict_counted_le cfg x H) as Hle.
    destruct (counted strict_mccabe x) eqn:Hx.
    - rewrite (Hle eq_refl). simpl length. lia.
    - destruct (counted cfg x); simpl length; lia. }
  destruct (G (preorder n)) as [G1 G2]. rewrite G1. lia.
Qed.

Lemma strict_estimate_is_strict_score_witness :
  estimate_strict_complexity
    {| fn_name := VAtom (AStr "f"); fn_line := 1; fn_col := 0;
       fn_end_line := Some 4; fn_end_col := Some 12; fn_is_async := false;
       fn_complexity := complexity (count comprehensive Tree.f);
       fn_details := details (count comprehensive Tree.f) |}
  = complexity (count strict_mccabe Tree.f).
Proof.
  refine (proj1 (strict_estimate_is_strict_score comprehensive Tree.f _ _ _)).
  - split; reflexivity.
  - intros k Hk. apply enabled_comprehensive.
Defined.

(** X21: the distribution [compare_methods] prints puts every function in
    exactly one of its four classes, and the number of high-complexity
    functions in the detailed report is that of the two upper classes. *)
Theorem distribution_partitions (fs : list function_info) :
  low fs + medium fs + high fs + very_high fs = Z.of_nat (length fs) /\
  high_complexity fs = high fs + very_high fs.
Proof.
  unfold low, medium, high, very_high, high_complexity, count_where.
  induction fs as [|f fs [IH1 IH2]]; [split; reflexivity|].
  cbn [List.filter].
  repeat match goal with
         | |- context [?a <=? ?b] => destruct (Z.leb_spec a b)
         | |- context [?a <? ?b] => destruct (Z.ltb_spec a b)
         end; cbn [andb length]; lia.
Qed.

Lemma type_counts_fold (ds : list ComplexityDetail) (tc : gmap string Z) (t : string) :
  counts_get (fold_left (fun tc detail =>
                <[type detail := default 0 (tc !! type detail) + amount detail]> tc)
              ds tc) t =
  counts_get tc t + type_sum t ds.
Proof.
  unfold type_sum. revert tc. induction ds as [|d ds IH]; intros tc.
  - unfold sum_amounts; simpl; lia.
  - cbn [fold_left List.filter]. rewrite IH. unfold counts_get.
    case_bool_decide as E.
    + rewrite E, lookup_insert_eq.
      change (sum_amounts (d :: ?l)) with (amount d + sum_amounts l).
      unfold sum_amounts at 2. cbn [foldr]. fold (sum_amounts
        (List.filter (fun d0 => bool_decide (type d0 = t)) ds)). simpl. lia.
    + now rewrite lookup_insert_ne.
Qed.

Lemma type_sum_absent (t : string) (ds : list ComplexityDetail) :
  Forall (fun d => type d <> t) ds -> type_sum t ds = 0.
Proof.
  unfold type_sum. induction 1 as [|d ds Hd _ IH]; [reflexivity|].
  cbn [List.filter]. now rewrite bool_decide_eq_false_2.
Qed.

(** X22: for the details of any pass, [type_counts] holds for each type the
    sum of the amounts of the details of that type; the breakdown line has
    no and/or and no comprehensions item, and it shows loops only when a
    [for] loop was counted: [while] loops alone are left out. *)
Theorem breakdown_of_a_pass (cfg : config) (n : node) :
  let tc := type_counts (details (count cfg n)) in
  (forall t, counts_get tc t = type_sum t (details (count cfg n))) /\
  counts_get tc "bool_op" = 0 /\
  counts_get tc "list_comp" = 0 /\
  breakdown_items tc =
    (if 0 <? counts_get tc "if"
     then ["if/elif: " +:+ pretty (counts_get tc "if")] else []) ++
    (if 0 <? counts_get tc "for"
     then ["loops: " +:+ pretty (counts_get tc "for" + counts_get tc "while")]
     else []).
Proof.
  intros tc.
  assert (Hget : forall t, counts_get tc t = type_sum t (details (count cfg n))).
  { intros t. unfold tc, type_counts. rewrite type_counts_fold.
    unfold counts_get. now rewrite lookup_empty. }
  assert (Hno : forall t,
            t ∉ ["if"; "while"; "for"; "except"; "assert"; "with"; "ternary"] ->
            counts_get tc t = 0).
  { intros t Ht. rewrite Hget. apply type_sum_absent.
    eapply Forall_impl; [apply count_details_simple|].
    intros d [_ Hd] E. apply Ht. now rewrite <- E. }
  assert (Hb : counts_get tc "bool_op" = 0) by (apply Hno; intros H; not_in_list H).
  assert (Hl : counts_get tc "list_comp" = 0) by (apply Hno; intros H; not_in_list H).
  split; [exact Hget|]. split; [exact Hb|]. split; [exact Hl|].
  unfold breakdown_items. rewrite Hb, Hl. cbn [Z.ltb Z.compare].
  now rewrite !app_nil_r.
Qed.

(** ** The environment check *)

(** X23: the environment check finds the interpreter compatible, and exits
    with 0, exactly when the [ast] module imports and the version is 3.6 or
    later: major above 3, or major 3 and minor at least 6; the micro version
    plays no part. *)
Theorem environment_compatibility (major minor micro : Z) (ast_imports : bool) :
  (compatible (test_environment major minor micro ast_imports) = true <->
   ast_imports = true /\ (3 < major \/ (major = 3 /\ 6 <= minor))) /\
  (test_env_exit major minor micro ast_imports = 0 <->
   compatible (test_environment major minor micro ast_imports) = true) /\
  test_environment major minor micro ast_imports =
  test_environment major minor 0 ast_imports.
Proof.
  unfold test_env_exit, test_environment. cbn [compatible tuple_ge].
  destruct (Z.eqb_spec major 3) as [->|Hm].
  - destruct (Z.eqb_spec minor 6) as [->|Hn].
    + destruct ast_imports; simpl; repeat split; try lia; try discriminate;
        intros; intuition (try lia; try discriminate).
    + destruct (Z.ltb_spec 6 minor); destruct ast_imports; simpl;
        repeat split; intros; intuition (try lia; try discriminate).
  - destruct (Z.ltb_spec 3 major); destruct ast_imports; simpl;
      repeat split; intros; intuition (try lia; try discriminate).
Qed.

(** ** Two more compositions *)

Lemma update_list_of_pairs (cfg : config) (members : list (string * json)) :
  update cfg (JArr (map (fun kv => JArr [JStr kv.1; kv.2]) members)) =
  update cfg (JObj members).
Proof.
  cbn [update]. revert cfg. induction members as [|[k v] ms IH]; intros cfg;
    [reflexivity|].
  cbn [map for_each as_pair mbind result_bind set_item fst snd fold_left].
  apply IH.
Qed.

(** X24: an override file that holds a list of two-element lists, each a
    text key and a value, resolves to the same configuration as one that
    holds the object with those members. *)
Theorem list_of_pairs_is_accepted_as_override (fs fs' : list string -> config_file)
    (getenv : option string) (dir : list string) (preset : option string)
    (found : list string) (members : list (string * json)) :
  nearest_override fs dir found ->
  nearest_override fs' dir found ->
  fs found = Loaded (JArr (map (fun kv => JArr [JStr kv.1; kv.2]) members)) ->
  fs' found = Loaded (JObj members) ->
  load_config fs getenv dir preset = load_config fs' getenv dir preset.
Proof.
  intros Hn Hn' Hfs Hfs'. unfold load_config.
  rewrite (find_project_config_nearest fs dir found Hn), Hfs.
  rewrite (find_project_config_nearest fs' dir found Hn'), Hfs'.
  rewrite update_list_of_pairs. now destruct members.
Qed.

Lemma list_of_pairs_is_accepted_as_override_witness :
  load_config
    (fun d => if bool_decide (d = ["home"; "proj"])
              then Loaded (JArr [JArr [JStr "countIf"; JBool false];
                                 JArr [JStr "team"; JStr "core"]])
              else Missing)
    None ["home"; "proj"; "src"] None
  = load_config project_fs None ["home"; "proj"; "src"] None.
Proof.
  assert (Hnear : forall j,
    nearest_override (fun d => if bool_decide (d = ["home"; "proj"])
                               then Loaded j else Missing)
                     ["home"; "proj"; "src"] ["home"; "proj"]).
  { intros j. split; [discriminate|]. split; [vm_compute; discriminate|].
    exists ["src"]. split; [reflexivity|]. intros mid rest E Hmid.
    destruct mid as [|x mid]; [contradiction|]. injection E as <- E.
    destruct mid; [|discriminate]. vm_compute. reflexivity. }
  exact (list_of_pairs_is_accepted_as_override _ project_fs None
           ["home"; "proj"; "src"] None ["home"; "proj"]
           [("countIf", JBool false); ("team", JStr "core")]
           (Hnear _) (Hnear _) eq_refl eq_refl).
Defined.

(** X25: with a configuration passed in, an analysis that succeeds reports
    exactly one function for each function definition outside other
    functions, in traversal order, each with the name, position and kind of
    its node and the outcome of a pass over it; every such definition then
    has a name and a position, and the count is their number. *)
Theorem successful_analysis_reports_outer_functions
    (fs : list string -> config_file) (getenv : option string)
    (file_path : string) (dir : list string) (tree : node) (cfg : config) :
  let r := (analyze_file fs getenv file_path dir (Ok tree) (Some cfg)).1 in
  success r = true ->
  Forall2 (describes (visitor_config (visitor_init (Some cfg))))
          (outer_functions tree) (result_functions r) /\
  total_functions r = Some (Z.of_nat (length (outer_functions tree))) /\
  forallb located_function (outer_functions tree) = true.
Proof.
  unfold analyze_file. cbn [mbind result_bind fst].
  destruct (visitor_visit tree (visitor_init (Some cfg))) as [v|e] eqn:Hv;
    cbn [mbind result_bind]; [|destruct e; discriminate].
  intros _.
  destruct (visitor_visit_describes tree _ _ Hv) as [new [Hf [Hd _]]].
  cbn [result_functions total_functions]. rewrite Hf.
  cbn [functions visitor_init app].
  split; [exact Hd|]. split.
  - now rewrite (Forall2_length _ _ _ Hd).
  - now apply (visitor_visit_Ok_located tree _ _ Hv).
Qed.

Lemma successful_analysis_reports_outer_functions_witness :
  total_functions (analyze_file (fun _ => Missing) None "o.py" ["tmp"]
                     (Ok (Tree.Module [Tree.outer])) (Some standard)).1
  = Some (Z.of_nat (length (outer_functions (Tree.Module [Tree.outer])))).
Proof.
  assert (H : success (analyze_file (fun _ => Missing) None "o.py" ["tmp"]
                         (Ok (Tree.Module [Tree.outer])) (Some standard)).1 = true)
    by (vm_compute; reflexivity).
  exact (proj1 (proj2 (successful_analysis_reports_outer_functions
                         (fun _ => Missing) None "o.py" ["tmp"]
                         (Tree.Module [Tree.outer]) standard H))).
Defined.
